(** * Experiments/ODE_Solvers/ode_solvers.py: the DC-motor field and the
      fixed-step RK4 integrator, over IEEE binary64 numbers.

    Python's [float] and NumPy's [float64] are IEEE 754 binary64 numbers
    rounded to nearest-even; they are modelled by Rocq's primitive [float],
    whose operations are the same machine operations and are specified,
    through [Prim2SF], by the library's [SpecFloat] functions.

    Layout of the development:
    - [result]: Python exceptions as an error monad;
    - [np]: the part of NumPy the program calls (1-D broadcasting, [zeros],
      row assignment, [arange]);
    - [dc_motor_ode], [runge_kutta4]: the two functions of the source, with
      value semantics (the vector field is a function), and
      [Py.dc_motor_ode], the field when its state holds Python floats;
    - [Heap]: the same integrator over a store of mutable objects, where the
      field is an arbitrary store transformer;
    - the properties: the shape of a returned trajectory and its
      recurrence, the runs that raise, the zero field, and the refinement of
      the value model by the store model with its frame and determinism
      corollaries. *)

From Stdlib Require Import ZArith List Lia Bool.
From Stdlib Require Import Floats.
From stdpp Require Import base list.
Import ListNotations.

Set Warnings "-inexact-float".
Set Default Proof Using "Type".

Open Scope float_scope.

(** ** Exceptions *)

(** The exceptions the modelled code can raise by itself.  [ValueError] is
    what NumPy raises for shapes that do not broadcast and what tuple
    unpacking raises for a wrong length; [OverflowError] occurs inside
    [np.arange] only, which replaces it by [ValueError]; [TypeError] is used
    by the store model for a reference to an object of the wrong kind. *)
Inductive exn : Set :=
  | ZeroDivisionError
  | ValueError
  | OverflowError
  | IndexError
  | TypeError.

Inductive result (A : Type) : Type :=
  | Ok (a : A)
  | Raise (e : exn).
Arguments Ok {A} a.
Arguments Raise {A} e.

#[global] Instance result_ret : MRet result := λ A a, Ok a.
#[global] Instance result_bind : MBind result := λ A B k m,
  match m with
  | Ok a => k a
  | Raise e => Raise e
  end.

(** [for x in xs: s = body(x, s)], stopping at the first exception. *)
Fixpoint for_each {A S : Type} (body : A → S → result S) (xs : list A) (s : S)
  : result S :=
  match xs with
  | [] => Ok s
  | x :: xs' => s' ← body x s; for_each body xs' s'
  end.

(** ** The NumPy operations used by the program *)

Module np.

(** Elementwise binary operation on two 1-D arrays under NumPy's
    broadcasting rule: equal lengths pair up, a length-1 operand is
    stretched, anything else is a [ValueError]. *)
Definition broadcast (op : float → float → float) (a b : list float)
  : result (list float) :=
  if decide (length a = length b) then Ok (zip_with op a b)
  else if decide (length a = 1%nat) then Ok (map (op (hd 0 a)) b)
  else if decide (length b = 1%nat) then Ok (map (λ x, op x (hd 0 b)) a)
  else Raise ValueError.

(** [a + b] on arrays. *)
Definition add : list float → list float → result (list float) :=
  broadcast PrimFloat.add.

(** [a * c], [a / c] and [c * a] for an array [a] and a scalar [c]. *)
Definition muls (a : list float) (c : float) : list float :=
  map (λ x, x * c) a.
Definition divs (a : list float) (c : float) : list float :=
  map (λ x, x / c) a.
Definition smul (c : float) (a : list float) : list float :=
  map (λ x, c * x) a.

(** [np.zeros((n, d))]. *)
Definition zeros (n d : nat) : list (list float) :=
  replicate n (replicate d 0).

(** [a[i]] for a 1-D or a 2-D array, with a non-negative index. *)
Definition getitem {A : Type} (a : list A) (i : nat) : result A :=
  match a !! i with
  | Some x => Ok x
  | None => Raise IndexError
  end.

(** What [row[...] = v] stores in a row of length [d]: [v] itself when it
    has that length, [v]'s only element repeated when it has length 1, and a
    [ValueError] otherwise. *)
Definition fit_row (d : nat) (v : list float) : result (list float) :=
  if decide (length v = d) then Ok v
  else if decide (length v = 1%nat) then Ok (replicate d (hd 0 v))
  else Raise ValueError.

(** [a[i] = v] for a 2-D array [a] and a non-negative index. *)
Definition setrow (a : list (list float)) (i : nat) (v : list float)
  : result (list (list float)) :=
  match a !! i with
  | None => Raise IndexError
  | Some row => r ← fit_row (length row) v; Ok (<[i := r]> a)
  end.

(** The integer [ceil x] of a finite binary64 number given by sign,
    mantissa and exponent. *)
Definition ceil_finite (s : bool) (m : positive) (e : Z) : Z :=
  if (0 <=? e)%Z then (if s then - (Z.pos m * 2 ^ e) else Z.pos m * 2 ^ e)%Z
  else if s then (- (Z.pos m / 2 ^ (- e)))%Z
       else (- ((- Z.pos m) / 2 ^ (- e)))%Z.

Definition intp_min : Z := (- 2 ^ 63)%Z.
Definition intp_max : Z := (2 ^ 63 - 1)%Z.

(** [(double)NPY_MAX_INTP], the upper bound of the range test: [2^63 - 1] is
    not a binary64 number and its conversion rounds to [2^63]. *)
Definition intp_max_as_double : Z := (2 ^ 63)%Z.

(** [(npy_intp)ivalue] for an integral [ivalue]: the number itself when it
    is in the range of [npy_intp]; for a number outside, which the range
    test lets through only for [2^63], the value the conversion instruction
    of x86-64 returns, [-2^63]. *)
Definition to_intp (c : Z) : Z :=
  if ((intp_min <=? c) && (c <=? intp_max))%Z then c else intp_min.

(** [_arange_safe_ceil_to_intp]: NaN is a [ValueError]; a ceiling below
    [(double)NPY_MIN_INTP] or above [(double)NPY_MAX_INTP] is an
    [OverflowError]; any other ceiling is converted to [npy_intp]. *)
Definition safe_ceil_to_intp (value : float) : result Z :=
  match Prim2SF value with
  | S754_nan => Raise ValueError
  | S754_infinity _ => Raise OverflowError
  | S754_zero _ => Ok 0%Z
  | S754_finite s m e =>
      let c := ceil_finite s m e in
      if ((intp_min <=? c) && (c <=? intp_max_as_double))%Z then Ok (to_intp c)
      else Raise OverflowError
  end.

(** The number of samples of [np.arange(start, stop, step)] for Python
    floats: the quotient [(stop - start) / step] is a Python division (it
    raises for a zero step), is rounded up, and a quotient that underflowed
    to zero counts one sample when it is [+0] and none when it is [-0]. *)
Definition calc_length (start stop step : float) : result Z :=
  let next := stop - start in
  if is_zero step then Raise ZeroDivisionError
  else
    let val := next / step in
    len ← safe_ceil_to_intp val;
    if is_zero val && negb (next =? 0)
    then Ok (if get_sign val then 0%Z else 1%Z)
    else Ok len.

Definition of_index (i : nat) : float :=
  of_uint63 (Uint63.of_Z (Z.of_nat i)).

(** The samples: the first is [start], the second [start + step], and the
    fill loop writes [start + i * delta] with
    [delta = (start + step) - start]. *)
Definition arange_item (start step : float) (i : nat) : float :=
  match i with
  | O => start
  | S O => start + step
  | _ => start + of_index i * ((start + step) - start)
  end.

(** [np.arange(start, stop, step)].  An [OverflowError] of the length
    computation is replaced by [ValueError] ("Maximum allowed size
    exceeded"), any other exception is passed on, and a length that is not
    positive gives the empty array.  The model has no bound on memory, so a
    large count never fails to allocate. *)
Definition arange (start stop step : float) : result (list float) :=
  match calc_length start stop step with
  | Ok len => Ok (map (arange_item start step) (seq 0 (Z.to_nat len)))
  | Raise OverflowError => Raise ValueError
  | Raise e => Raise e
  end.

End np.

(** ** The source functions *)

(** [dc_motor_ode(state, t, params)].  Both unpackings raise [ValueError] on a
    wrong length.  The components of [state] are [float64] values when the
    integrator calls the field, so the two divisions are IEEE divisions
    (for a state of Python floats, whose division raises, see
    [Py.dc_motor_ode] below). *)
Definition dc_motor_ode (state : list float) (t : float) (params : list float)
  : result (list float) :=
  match state with
  | [ω; i] =>
      match params with
      | [J; b; Kt; Ke; R; L; u] =>
          let dω_dt := (Kt * i - b * ω) / J in
          let di_dt := (u - R * i - Ke * ω) / L in
          Ok [dω_dt; di_dt]
      | _ => Raise ValueError
      end
  | _ => Raise ValueError
  end.

(** ** The field called with Python floats *)

Module Py.

(** Python's [x / y] on floats: a zero divisor, of either sign, raises. *)
Definition truediv (x y : float) : result float :=
  if is_zero y then Raise ZeroDivisionError else Ok (x / y).

(** [dc_motor_ode(state, t, params)] for a [state] and [params] whose
    components are Python floats, as in a call from outside the integrator
    with lists or tuples: the products and differences are the same
    binary64 operations, but the two divisions are Python's. *)
Definition dc_motor_ode (state : list float) (t : float) (params : list float)
  : result (list float) :=
  match state with
  | [ω; i] =>
      match params with
      | [J; b; Kt; Ke; R; L; u] =>
          dω_dt ← truediv (Kt * i - b * ω) J;
          di_dt ← truediv (u - R * i - Ke * ω) L;
          Ok [dω_dt; di_dt]
      | _ => Raise ValueError
      end
  | _ => Raise ValueError
  end.

End Py.

(** ** The integrator *)

(** A vector field: a function of the state, the time and an opaque
    parameter bundle that returns a 1-D array or raises. *)
Definition field (P : Type) : Type := list float → float → P → result (list float).

(** The body of the loop up to the value assigned to [state[i+1]];
    [s] is [state[i]] and [ti] is [t[i]]. *)
Definition rk4_increment {P : Type} (f : field P) (params : P) (dt : float)
    (s : list float) (ti : float) : result (list float) :=
  y1 ← f s ti params;
  let k1 := np.muls y1 dt in
  a2 ← np.add s (np.divs k1 2);
  y2 ← f a2 (ti + dt / 2) params;
  let k2 := np.muls y2 dt in
  a3 ← np.add s (np.divs k2 2);
  y3 ← f a3 (ti + dt / 2) params;
  let k3 := np.muls y3 dt in
  a4 ← np.add s k3;
  y4 ← f a4 (ti + dt) params;
  let k4 := np.muls y4 dt in
  u1 ← np.add k1 (np.smul 2 k2);
  u2 ← np.add u1 (np.smul 2 k3);
  u3 ← np.add u2 k4;
  np.add s (np.divs u3 6).

Definition rk4_body {P : Type} (f : field P) (params : P) (dt : float)
    (t : list float) (i : nat) (state : list (list float))
  : result (list (list float)) :=
  s ← np.getitem state i;
  ti ← np.getitem t i;
  v ← rk4_increment f params dt s ti;
  np.setrow state (i + 1) v.

Definition runge_kutta4 {P : Type} (f : field P) (state0 : list float)
    (t_span : float * float) (dt : float) (params : P)
  : result (list float * list (list float)) :=
  let '(t0, tf) := t_span in
  t ← np.arange t0 tf dt;
  let n := length t in
  let state := np.zeros n (length state0) in
  state ← np.setrow state 0 state0;
  state ← for_each (rk4_body f params dt t) (seq 0 (n - 1)) state;
  Ok (t, state).

(** The parameters and the initial state of the script's main block. *)
Definition motor_params : list float := [0.01; 0.1; 0.1; 0.1; 1.0; 0.1; 1.0].
Definition motor_state0 : list float := [0.0; 0.0].

(** ** The integrator over a store of mutable objects *)

Module Heap.

(** The objects the program handles by reference: a sequence of floats (a
    Python list or a 1-D array) and a 2-D array. *)
Inductive obj : Type :=
  | Seq (xs : list float)
  | Mat (rows : list (list float)).

(** The store: an object's address is its position, and allocation appends. *)
Abbreviation heap := (list obj).

(** What the field receives as its state: an array object, or the view
    [a[i]] of a row of a 2-D array, which shares the array's memory. *)
Inductive ref : Type :=
  | Whole (l : nat)
  | RowOf (l : nat) (i : nat).

(** A computation that may raise and may change the store; the store
    survives an exception. *)
Definition M (A : Type) : Type := heap → result A * heap.

#[global] Instance M_ret : MRet M := λ A a h, (Ok a, h).
#[global] Instance M_bind : MBind M := λ A B k m h,
  match m h with
  | (Ok a, h') => k a h'
  | (Raise e, h') => (Raise e, h')
  end.

Definition lift {A : Type} (r : result A) : M A := λ h, (r, h).

Definition alloc (o : obj) : M nat := λ h, (Ok (length h), h ++ [o]).

Definition deref (h : heap) (r : ref) : option (list float) :=
  match r with
  | Whole l => match h !! l with Some (Seq xs) => Some xs | _ => None end
  | RowOf l i => match h !! l with Some (Mat rows) => rows !! i | _ => None end
  end.

(** Reading a sequence of floats; an object of another kind is a
    [TypeError], a missing row an [IndexError]. *)
Definition read_seq (l : nat) : M (list float) := λ h,
  match h !! l with
  | Some (Seq xs) => (Ok xs, h)
  | _ => (Raise TypeError, h)
  end.

Definition read_row (l i : nat) : M (list float) := λ h,
  match h !! l with
  | Some (Mat rows) => (np.getitem rows i, h)
  | _ => (Raise TypeError, h)
  end.

Definition read_item (l i : nat) : M float := λ h,
  match h !! l with
  | Some (Seq xs) => (np.getitem xs i, h)
  | _ => (Raise TypeError, h)
  end.

(** [a[i] = v] on the 2-D array at address [l], in place. *)
Definition write_row (l i : nat) (v : list float) : M unit := λ h,
  match h !! l with
  | Some (Mat rows) =>
      match np.setrow rows i v with
      | Ok rows' => (Ok tt, <[l := Mat rows']> h)
      | Raise e => (Raise e, h)
      end
  | _ => (Raise TypeError, h)
  end.

(** A field as the integrator sees it: called with a reference to the state,
    the time and the address of the parameters, it may do anything to the
    store.  Its result is modelled by the contents of the array it returns:
    the integrator multiplies that array by [dt] at once, which reads it and
    builds a new array, so nothing else of it is ever used. *)
Definition field : Type := ref → float → nat → M (list float).

Fixpoint for_range (body : nat → M unit) (xs : list nat) : M unit :=
  match xs with
  | [] => mret tt
  | x :: xs' => _ ← body x; for_range body xs'
  end.

Definition rk4_body (f : field) (params : nat) (dt : float) (t state : nat)
    (i : nat) : M unit :=
  _ ← read_row state i;
  ti ← read_item t i;
  y1 ← f (RowOf state i) ti params;
  let k1 := np.muls y1 dt in
  s ← read_row state i;
  a2 ← lift (np.add s (np.divs k1 2));
  r2 ← alloc (Seq a2);
  y2 ← f (Whole r2) (ti + dt / 2) params;
  let k2 := np.muls y2 dt in
  s ← read_row state i;
  a3 ← lift (np.add s (np.divs k2 2));
  r3 ← alloc (Seq a3);
  y3 ← f (Whole r3) (ti + dt / 2) params;
  let k3 := np.muls y3 dt in
  s ← read_row state i;
  a4 ← lift (np.add s k3);
  r4 ← alloc (Seq a4);
  y4 ← f (Whole r4) (ti + dt) params;
  let k4 := np.muls y4 dt in
  s ← read_row state i;
  u1 ← lift (np.add k1 (np.smul 2 k2));
  u2 ← lift (np.add u1 (np.smul 2 k3));
  u3 ← lift (np.add u2 k4);
  v ← lift (np.add s (np.divs u3 6));
  write_row state (i + 1) v.

Definition runge_kutta4 (f : field) (state0 : nat) (t_span : float * float)
    (dt : float) (params : nat) : M (nat * nat) :=
  let '(t0, tf) := t_span in
  ts ← lift (np.arange t0 tf dt);
  t ← alloc (Seq ts);
  let n := length ts in
  s0 ← read_seq state0;
  state ← alloc (Mat (np.zeros n (length s0)));
  s0 ← read_seq state0;
  _ ← write_row state 0 s0;
  _ ← for_range (rk4_body f params dt t state) (seq 0 (n - 1));
  mret (t, state).

(** A field that computes its result from the values of its arguments and
    stores the result in a fresh array. *)
Definition of_function (g : list float → float → list float → result (list float))
  : field := λ r t p h,
  match deref h r, h !! p with
  | Some s, Some (Seq ps) =>
      match g s t ps with
      | Ok y => (Ok y, h ++ [Seq y])
      | Raise e => (Raise e, h)
      end
  | _, _ => (Raise TypeError, h)
  end.

(** What the caller observes of a call: the exception, or the contents of
    the two arrays whose addresses the call returned. *)
Definition outcome (x : result (nat * nat) * heap)
  : result (list float * list (list float)) :=
  match x with
  | (Ok (t, state), h) =>
      match h !! t, h !! state with
      | Some (Seq ts), Some (Mat st) => Ok (ts, st)
      | _, _ => Raise TypeError
      end
  | (Raise e, _) => Raise e
  end.

(** A field that is not pure: it returns the number stored in the parameter
    object and increments it in place. *)
Definition counting_field : field := λ r t p h,
  match h !! p with
  | Some (Seq [c]) => (Ok [c], <[p := Seq [c + 1]]> h)
  | _ => (Raise TypeError, h)
  end.

End Heap.

(** ** Vocabulary of the statements *)

(** Every row of the buffer has length [d]. *)
Definition rect (d : nat) (a : list (list float)) : Prop :=
  Forall (λ row, length row = d) a.

(** [rk4_stages f params dt s ti y1 y2 y3 y4 v]: the four field evaluations of
    an iteration that starts from [s] at time [ti] return [y1] to [y4], and
    [v] is the right-hand side of the assignment to [state[i+1]], in the
    association the source uses. *)
Definition rk4_stages {P : Type} (f : field P) (params : P) (dt : float)
    (s : list float) (ti : float) (y1 y2 y3 y4 v : list float) : Prop :=
  let k1 := np.muls y1 dt in
  let k2 := np.muls y2 dt in
  let k3 := np.muls y3 dt in
  let k4 := np.muls y4 dt in
  ∃ a2 a3 a4 u1 u2 u3,
    f s ti params = Ok y1
    ∧ np.add s (np.divs k1 2) = Ok a2 ∧ f a2 (ti + dt / 2) params = Ok y2
    ∧ np.add s (np.divs k2 2) = Ok a3 ∧ f a3 (ti + dt / 2) params = Ok y3
    ∧ np.add s k3 = Ok a4 ∧ f a4 (ti + dt) params = Ok y4
    ∧ np.add k1 (np.smul 2 k2) = Ok u1
    ∧ np.add u1 (np.smul 2 k3) = Ok u2
    ∧ np.add u2 k4 = Ok u3
    ∧ np.add s (np.divs u3 6) = Ok v.

(** The update as the specification words it: the slopes are the bare field
    values, the intermediate states use [h/2 * k] and [h * k], and the
    weighted sum is scaled by [h/6]. *)
Definition spec_rk4_update {P : Type} (f : field P) (params : P) (h : float)
    (s : list float) (t : float) : result (list float) :=
  k1 ← f s t params;
  a2 ← np.add s (np.smul (h / 2) k1);
  k2 ← f a2 (t + h / 2) params;
  a3 ← np.add s (np.smul (h / 2) k2);
  k3 ← f a3 (t + h / 2) params;
  a4 ← np.add s (np.smul h k3);
  k4 ← f a4 (t + h) params;
  u1 ← np.add k1 (np.smul 2 k2);
  u2 ← np.add u1 (np.smul 2 k3);
  u3 ← np.add u2 k4;
  np.add s (np.smul (h / 6) u3).

(** A field with a constant slope. *)
Definition const_field (y : list float) : field unit := λ _ _ _, Ok y.

(** The length of a broadcast result as a relation on the three lengths. *)
Definition bshape (a b c : nat) : Prop :=
  (a = b ∧ c = a) ∨ (a ≠ b ∧ a = 1%nat ∧ c = b)
  ∨ (a ≠ b ∧ a ≠ 1%nat ∧ b = 1%nat ∧ c = a).

(** Two binary64 values that denote the same number: identical, or two
    zeros (Python's [-0.0 == 0.0]). *)
Definition same_number (x y : float) : Prop :=
  x = y ∨ (is_zero x = true ∧ is_zero y = true).

(** A field whose value is a zero vector of the length of its argument, for
    every state, time and parameters. *)
Definition zero_valued {P : Type} (f : field P) : Prop :=
  ∀ s t params, ∃ y,
    f s t params = Ok y ∧ length y = length s ∧ Forall (λ x, is_zero x = true) y.

Definition zero_field {P : Type} : field P := λ s _ _, Ok (replicate (length s) 0).

Definition all_zero (v : list float) : Prop := Forall (λ x, is_zero x = true) v.

(** A row that denotes the initial state: componentwise the same numbers,
    and the same bits when the initial state has no negative zero. *)
Definition keeps (state0 row : list float) : Prop :=
  Forall2 same_number row state0
  ∧ (Forall (λ x, x ≠ neg_zero) state0 → row = state0).

(** The integer a finite number contributes to a sum or difference computed
    at the exponent [ez]. *)
Definition aligned (s : bool) (m : positive) (e ez : Z) : Z :=
  cond_Zopp s (Z.pos (fst (shl_align m e ez))).

Definition SFsignbit (x : spec_float) : option bool :=
  match x with
  | S754_nan => None
  | S754_zero s | S754_infinity s | S754_finite s _ _ => Some s
  end.

(** NaN, a zero, or a number with the given sign. *)
Definition SFsigned (sg : bool) (x : spec_float) : Prop :=
  match x with
  | S754_nan | S754_zero _ => True
  | S754_infinity s | S754_finite s _ _ => s = sg
  end.

(** The two ways in which the span and the step point in opposite
    directions (or the span is empty). *)
Definition opposed (t0 tf dt : float) : Prop :=
  ((tf <=? t0) = true ∧ (0 <? dt) = true)
  ∨ ((t0 <=? tf) = true ∧ (dt <? 0) = true).

(** A field is pure when its result is a function [g] of the values of its
    arguments and the only thing it does to the store is to allocate. *)
Definition pure_field (f : Heap.field) (g : field (list float)) : Prop :=
  ∀ h r t p s ps,
    Heap.deref h r = Some s → h !! p = Some (Heap.Seq ps) →
    ∃ h', f r t p h = (g s t ps, h') ∧ h `prefix_of` h'.

(** The part of the store a run works on: the caller's store [h] is a
    prefix of the current one, the time grid lives at [lt], the state buffer
    at [ls], both allocated by the run, and the parameters at [lp]. *)
Record run_inv (h hc : Heap.heap) (lt ls lp : nat) (ts : list float)
    (st : list (list float)) (ps : list float) : Prop := {
  inv_prefix : h `prefix_of` hc;
  inv_fresh_t : (length h ≤ lt)%nat;
  inv_fresh_s : (length h ≤ ls)%nat;
  inv_distinct : lt ≠ ls;
  inv_t : hc !! lt = Some (Heap.Seq ts);
  inv_s : hc !! ls = Some (Heap.Mat st);
  inv_p : hc !! lp = Some (Heap.Seq ps);
  inv_old_p : (lp < length h)%nat
}.

(** The store of the script's main block: the initial state and the
    parameter list. *)
Definition main_heap : Heap.heap := [Heap.Seq motor_state0; Heap.Seq motor_params].

(** ** Vocabulary of the further properties *)

(** A field that honours the contract for states of dimension [d] under the
    parameters [params]: on every such state and at every time it returns a
    derivative of the same dimension. *)
Definition shape_respecting {P : Type} (f : field P) (params : P) (d : nat) : Prop :=
  ∀ s t, length s = d → ∃ y, f s t params = Ok y ∧ length y = d.

(** The field that stretches the single slope of [f] over the components of
    the state. *)
Definition stretched {P : Type} (f : field P) : field P := λ s t params,
  y ← f s t params; Ok (replicate (length s) (hd 0 y)).

(** A binary64 value that is a number: a zero or a finite non-zero value,
    not an infinity and not NaN. *)
Definition finite (x : float) : Prop :=
  match Prim2SF x with
  | S754_zero _ | S754_finite _ _ _ => True
  | _ => False
  end.

(** The result of the [j]-th of the four field evaluations (counted from
    0; every [j] from 3 on denotes the last) of the iteration that starts
    from [s] at time [ti], as far as the iteration gets: the evaluations
    and sums before it, then the call. *)
Definition rk4_eval {P : Type} (f : field P) (params : P) (dt : float)
    (s : list float) (ti : float) (j : nat) : result (list float) :=
  match j with
  | 0%nat => f s ti params
  | 1%nat =>
      y1 ← f s ti params;
      a2 ← np.add s (np.divs (np.muls y1 dt) 2);
      f a2 (ti + dt / 2) params
  | 2%nat =>
      y1 ← f s ti params;
      a2 ← np.add s (np.divs (np.muls y1 dt) 2);
      y2 ← f a2 (ti + dt / 2) params;
      a3 ← np.add s (np.divs (np.muls y2 dt) 2);
      f a3 (ti + dt / 2) params
  | _ =>
      y1 ← f s ti params;
      a2 ← np.add s (np.divs (np.muls y1 dt) 2);
      y2 ← f a2 (ti + dt / 2) params;
      a3 ← np.add s (np.divs (np.muls y2 dt) 2);
      y3 ← f a3 (ti + dt / 2) params;
      a4 ← np.add s (np.muls y3 dt);
      f a4 (ti + dt) params
  end.

(** The span and the step point the same way: forwards, or backwards. *)
Definition directed (t0 tf dt : float) : Prop :=
  ((t0 <? tf) = true ∧ (0 <? dt) = true)
  ∨ ((tf <? t0) = true ∧ (dt <? 0) = true).

(** * Properties *)

(** ** Reasoning principles for the error monad *)

Lemma bind_Ok {A B : Type} (m : result A) (k : A → result B) (b : B) :
  m ≫= k = Ok b ↔ ∃ a, m = Ok a ∧ k a = Ok b.
Proof.
  destruct m as [a|e]; simpl; split.
  - intros H. exists a. split; [reflexivity | exact H].
  - intros (a' & Ha & Hk). injection Ha as ->. exact Hk.
  - discriminate.
  - intros (a' & Ha & _). discriminate.
Qed.

(** Splits a hypothesis [x ← m; k = Ok b] into its two halves. *)
Ltac bind_inv H :=
  let a := fresh "a" in
  let Ha := fresh "Ha" in
  let Hk := fresh "Hk" in
  apply bind_Ok in H; destruct H as (a & Ha & Hk).

(** ** Shapes *)

Lemma broadcast_Ok op a b c :
  np.broadcast op a b = Ok c →
  (length a = length b ∧ c = zip_with op a b)
  ∨ (length a ≠ length b ∧ length a = 1%nat ∧ c = map (op (hd 0 a)) b)
  ∨ (length a ≠ length b ∧ length a ≠ 1%nat ∧ length b = 1%nat
     ∧ c = map (λ x, op x (hd 0 b)) a).
Proof.
  unfold np.broadcast. repeat case_decide; intros Heq; try discriminate;
    injection Heq as <-; tauto.
Qed.

Lemma broadcast_same op a b :
  length a = length b → np.broadcast op a b = Ok (zip_with op a b).
Proof. intros E. unfold np.broadcast. rewrite decide_True; auto. Qed.

Lemma fit_row_length d v r : np.fit_row d v = Ok r → length r = d.
Proof.
  unfold np.fit_row. repeat case_decide; intros Heq; try discriminate;
    injection Heq as <-; [assumption | apply length_replicate].
Qed.

Lemma fit_row_same v : np.fit_row (length v) v = Ok v.
Proof. unfold np.fit_row. rewrite decide_True; auto. Qed.

Lemma setrow_Ok a i v a' :
  np.setrow a i v = Ok a' →
  ∃ row r, a !! i = Some row ∧ np.fit_row (length row) v = Ok r ∧ a' = <[i := r]> a.
Proof.
  unfold np.setrow. destruct (a !! i) as [row|] eqn:E; [|discriminate].
  intros H. bind_inv H. injection Hk as <-. eauto.
Qed.

Lemma rect_zeros n d : rect d (np.zeros n d).
Proof.
  unfold rect, np.zeros. apply Forall_forall. intros row Hin.
  apply elem_of_replicate in Hin as [-> _].
  apply length_replicate.
Qed.

Lemma rect_lookup d a i row : rect d a → a !! i = Some row → length row = d.
Proof. intros Hr Hl. exact (proj1 (Forall_lookup _ _) Hr i row Hl). Qed.

Lemma getitem_Ok {A : Type} (a : list A) i x : np.getitem a i = Ok x ↔ a !! i = Some x.
Proof.
  unfold np.getitem. destruct (a !! i); split; intros H; congruence.
Qed.

Lemma setrow_zeros n d state0 :
  length state0 = d →
  np.setrow (np.zeros n d) 0 state0
  = match n with
    | O => Raise IndexError
    | S _ => Ok (<[0%nat := state0]> (np.zeros n d))
    end.
Proof.
  intros <-. unfold np.setrow, np.zeros. destruct n as [|n]; simpl; [reflexivity|].
  rewrite length_replicate, fit_row_same. reflexivity.
Qed.

(** ** The time grid *)

Lemma arange_Ok start stop step ts :
  np.arange start stop step = Ok ts ↔
  ∃ len, np.calc_length start stop step = Ok len
         ∧ ts = map (np.arange_item start step) (seq 0 (Z.to_nat len)).
Proof.
  unfold np.arange. destruct (np.calc_length start stop step) as [len'|e].
  - split.
    + intros H. injection H as <-. eauto.
    + intros (len & Hl & ->). injection Hl as ->. reflexivity.
  - split; [destruct e; discriminate | intros (len & Hl & _); discriminate].
Qed.

Lemma arange_length start stop step ts len :
  np.arange start stop step = Ok ts → np.calc_length start stop step = Ok len →
  length ts = Z.to_nat len.
Proof.
  intros H Hl. apply arange_Ok in H as (len' & Hl' & ->).
  rewrite Hl in Hl'. injection Hl' as <-. rewrite length_map, length_seq. reflexivity.
Qed.

Lemma arange_lookup start stop step ts i :
  np.arange start stop step = Ok ts → (i < length ts)%nat →
  ts !! i = Some (np.arange_item start step i).
Proof.
  intros H Hi. apply arange_Ok in H as (len & _ & ->).
  rewrite length_map, length_seq in Hi.
  rewrite list_lookup_fmap, lookup_seq_lt by exact Hi. reflexivity.
Qed.

Lemma rk4_increment_Ok {P : Type} (f : field P) params dt s ti v :
  rk4_increment f params dt s ti = Ok v ↔
  ∃ y1 y2 y3 y4, rk4_stages f params dt s ti y1 y2 y3 y4 v.
Proof.
  unfold rk4_increment, rk4_stages. split.
  - intros H. repeat (apply bind_Ok in H; destruct H as (? & ? & H)).
    do 10 eexists. repeat (split; [eassumption|]). exact H.
  - intros (y1 & y2 & y3 & y4 & a2 & a3 & a4 & u1 & u2 & u3 & H).
    destruct H as (H1 & H2 & H3 & H4 & H5 & H6 & H7 & H8 & H9 & H10 & H11).
    rewrite H1; cbn [mbind result_bind]. rewrite H2; cbn [mbind result_bind].
    rewrite H3; cbn [mbind result_bind]. rewrite H4; cbn [mbind result_bind].
    rewrite H5; cbn [mbind result_bind]. rewrite H6; cbn [mbind result_bind].
    rewrite H7; cbn [mbind result_bind]. rewrite H8; cbn [mbind result_bind].
    rewrite H9; cbn [mbind result_bind]. rewrite H10; cbn [mbind result_bind].
    exact H11.
Qed.

(** ** The loop *)

Lemma rk4_body_Ok {P : Type} (f : field P) params dt ts i st st' :
  rk4_body f params dt ts i st = Ok st' →
  ∃ s ti v old row,
    st !! i = Some s ∧ ts !! i = Some ti
    ∧ rk4_increment f params dt s ti = Ok v
    ∧ st !! (i + 1)%nat = Some old ∧ np.fit_row (length old) v = Ok row
    ∧ st' = <[(i + 1)%nat := row]> st.
Proof.
  unfold rk4_body. intros H.
  apply bind_Ok in H as (s & Hs & H). apply bind_Ok in H as (ti & Hti & H).
  apply bind_Ok in H as (v & Hv & H).
  apply getitem_Ok in Hs, Hti. apply setrow_Ok in H as (old & row & Ho & Hf & ->).
  exists s, ti, v, old, row. tauto.
Qed.

(** After the iterations [i0, ..., i0 + k - 1]: the buffer keeps its shape,
    the rows up to [i0] are untouched, and each later row is the increment
    computed from the row before it. *)
Lemma rk4_loop_spec {P : Type} (f : field P) params dt ts d k :
  ∀ i0 st st',
    rect d st →
    for_each (rk4_body f params dt ts) (seq i0 k) st = Ok st' →
    length st' = length st ∧ rect d st'
    ∧ (∀ j, (j ≤ i0)%nat → st' !! j = st !! j)
    ∧ ∀ i, (i0 ≤ i < i0 + k)%nat →
        ∃ s ti v row,
          st' !! i = Some s ∧ ts !! i = Some ti
          ∧ rk4_increment f params dt s ti = Ok v
          ∧ np.fit_row d v = Ok row ∧ st' !! (i + 1)%nat = Some row.
Proof.
  induction k as [|k IH]; intros i0 st st' Hrect H; simpl in H.
  - injection H as <-. repeat split; auto. intros i Hi. lia.
  - apply bind_Ok in H as (st1 & Hbody & H).
    pose proof Hbody as Hb.
    apply rk4_body_Ok in Hb as (s & ti & v & old & row & Hs & Hti & Hv & Ho & Hf & ->).
    assert (Hd : length old = d) by (eapply rect_lookup; eauto).
    rewrite Hd in Hf.
    assert (Hrect1 : rect d (<[(i0 + 1)%nat := row]> st)).
    { apply Forall_insert; [exact Hrect | eapply fit_row_length; eauto]. }
    specialize (IH (S i0) _ _ Hrect1 H) as (Hlen & Hrect' & Hkeep & Hstep).
    rewrite length_insert in Hlen.
    assert (Hlt : (i0 + 1 < length st)%nat) by (eapply lookup_lt_Some; eauto).
    repeat split; auto.
    + intros j Hj. rewrite Hkeep by lia. apply list_lookup_insert_ne. lia.
    + intros i Hi. destruct (decide (i = i0)) as [->|Hne].
      * exists s, ti, v, row. repeat split; auto.
        -- rewrite Hkeep by lia. rewrite list_lookup_insert_ne by lia. exact Hs.
        -- rewrite Hkeep by lia. apply list_lookup_insert_eq. exact Hlt.
      * apply Hstep. lia.
Qed.

Lemma runge_kutta4_Ok {P : Type} (f : field P) state0 t0 tf dt params ts st :
  runge_kutta4 f state0 (t0, tf) dt params = Ok (ts, st) ↔
  np.arange t0 tf dt = Ok ts ∧ ts ≠ []
  ∧ for_each (rk4_body f params dt ts) (seq 0 (length ts - 1))
      (<[0%nat := state0]> (np.zeros (length ts) (length state0))) = Ok st.
Proof.
  unfold runge_kutta4. rewrite bind_Ok. split.
  - intros (ts' & Ht & H). rewrite setrow_zeros in H by reflexivity.
    destruct ts' as [|x ts']; [discriminate|]. simpl in H.
    apply bind_Ok in H as (st' & Hloop & H). injection H as <- <-.
    repeat split; auto.
  - intros (Ht & Hne & Hloop). exists ts. split; [exact Ht|].
    rewrite setrow_zeros by reflexivity.
    destruct ts as [|x ts']; [congruence|]. simpl. simpl in Hloop.
    rewrite Hloop. reflexivity.
Qed.

(** ** The DC-motor field *)

(** C2. For a state [(ω, i)] and parameters [(J, b, Kt, Ke, R, L, u)] with
    [J] and [L] different from zero, [dc_motor_ode] returns the pair
    [((Kt*i - b*ω)/J, (u - R*i - Ke*ω)/L)], whatever the time argument. *)
Theorem dc_motor_ode_derivative (ω i J b Kt Ke R L u t : float) :
  (J =? 0) = false → (L =? 0) = false →
  dc_motor_ode [ω; i] t [J; b; Kt; Ke; R; L; u]
  = Ok [(Kt * i - b * ω) / J; (u - R * i - Ke * ω) / L].
Proof. intros _ _. reflexivity. Qed.

Lemma dc_motor_ode_derivative_witness :
  dc_motor_ode [0.5; 2] 1.25 motor_params
  = Ok [(0.1 * 2 - 0.1 * 0.5) / 0.01; (1.0 - 1.0 * 2 - 0.1 * 0.5) / 0.1].
Proof.
  exact (dc_motor_ode_derivative 0.5 2 0.01 0.1 0.1 0.1 1.0 0.1 1.0 1.25
           eq_refl eq_refl).
Defined.

(** ** The trajectory *)

(** Everything a returned trajectory satisfies, in one place. *)
Lemma runge_kutta4_spec {P : Type} (f : field P) state0 t0 tf dt params ts states :
  runge_kutta4 f state0 (t0, tf) dt params = Ok (ts, states) →
  np.arange t0 tf dt = Ok ts
  ∧ (1 ≤ length ts)%nat
  ∧ length states = length ts
  ∧ rect (length state0) states
  ∧ states !! 0%nat = Some state0
  ∧ ∀ i, (i + 1 < length ts)%nat →
      ∃ s ti v row,
        states !! i = Some s ∧ ts !! i = Some ti
        ∧ rk4_increment f params dt s ti = Ok v
        ∧ np.fit_row (length state0) v = Ok row
        ∧ states !! (i + 1)%nat = Some row.
Proof.
  intros H. apply runge_kutta4_Ok in H as (Ht & Hne & Hloop).
  assert (Hn : (1 ≤ length ts)%nat) by (destruct ts; [congruence | simpl; lia]).
  assert (Hrect : rect (length state0)
            (<[0%nat := state0]> (np.zeros (length ts) (length state0)))).
  { apply Forall_insert; [apply rect_zeros | reflexivity]. }
  apply (rk4_loop_spec f params dt ts (length state0)) in Hloop
    as (Hlen & Hrect' & Hkeep & Hstep); [|exact Hrect].
  rewrite length_insert in Hlen. unfold np.zeros in Hlen at 1.
  rewrite length_replicate in Hlen.
  repeat split; auto.
  - rewrite Hkeep by lia. apply list_lookup_insert_eq.
    unfold np.zeros. rewrite length_replicate. lia.
  - intros i Hi. apply Hstep. lia.
Qed.

(** C4. The first state of a returned trajectory is the initial state, bit
    for bit: row 0 is written once, before the loop, and no iteration
    writes it. *)
Theorem first_state_is_initial {P : Type} (f : field P) state0 t0 tf dt params
    ts states :
  runge_kutta4 f state0 (t0, tf) dt params = Ok (ts, states) →
  states !! 0%nat = Some state0.
Proof. intros H. apply runge_kutta4_spec in H. tauto. Qed.

Lemma first_state_is_initial_witness :
  ∃ ts states,
    runge_kutta4 dc_motor_ode motor_state0 (0.0, 0.05) 0.01 motor_params
    = Ok (ts, states)
    ∧ states !! 0%nat = Some motor_state0.
Proof.
  eexists. eexists.
  assert (H : ∀ r ts states,
             runge_kutta4 dc_motor_ode motor_state0 (0.0, 0.05) 0.01 motor_params = r →
             r = Ok (ts, states) →
             r = Ok (ts, states) ∧ states !! 0%nat = Some motor_state0).
  { intros r ts states <- Hr. split; [exact Hr|].
    exact (first_state_is_initial _ _ _ _ _ _ _ _ Hr). }
  apply (H _ _ _ eq_refl). vm_compute. reflexivity.
Defined.

(** C1 (as amended). In a returned trajectory of [n] samples, for every [i]
    from [0] to [n-2], [states[i+1] = states[i] + (k1 + 2*k2 + 2*k3 + k4)/6]
    where [k1 = f(states[i], t_i, params)*dt],
    [k2 = f(states[i] + k1/2, t_i + dt/2, params)*dt],
    [k3 = f(states[i] + k2/2, t_i + dt/2, params)*dt] and
    [k4 = f(states[i] + k3, t_i + dt, params)*dt], with [t_i = times[i]]:
    each slope is scaled by [dt] before it is used, the arithmetic is
    binary64 and elementwise under NumPy's broadcasting, and the update is
    applied [n-1] times (the trajectory has [n] states, the first of which is
    the initial state). *)
Theorem rk4_recurrence {P : Type} (f : field P) state0 t0 tf dt params ts states :
  runge_kutta4 f state0 (t0, tf) dt params = Ok (ts, states) →
  length states = length ts
  ∧ states !! 0%nat = Some state0
  ∧ ∀ i, (i + 1 < length ts)%nat →
      ∃ s ti y1 y2 y3 y4 a2 a3 a4 u1 u2 u3 v row,
        let k1 := np.muls y1 dt in
        let k2 := np.muls y2 dt in
        let k3 := np.muls y3 dt in
        let k4 := np.muls y4 dt in
        states !! i = Some s ∧ ts !! i = Some ti
        ∧ f s ti params = Ok y1
        ∧ np.add s (np.divs k1 2) = Ok a2 ∧ f a2 (ti + dt / 2) params = Ok y2
        ∧ np.add s (np.divs k2 2) = Ok a3 ∧ f a3 (ti + dt / 2) params = Ok y3
        ∧ np.add s k3 = Ok a4 ∧ f a4 (ti + dt) params = Ok y4
        ∧ np.add k1 (np.smul 2 k2) = Ok u1
        ∧ np.add u1 (np.smul 2 k3) = Ok u2
        ∧ np.add u2 k4 = Ok u3
        ∧ np.add s (np.divs u3 6) = Ok v
        ∧ np.fit_row (length state0) v = Ok row
        ∧ states !! (i + 1)%nat = Some row.
Proof.
  intros H. apply runge_kutta4_spec in H as (_ & _ & Hlen & _ & H0 & Hstep).
  split; [exact Hlen|]. split; [exact H0|].
  intros i Hi. destruct (Hstep i Hi) as (s & ti & v & row & Hs & Hti & Hv & Hf & Hr).
  apply rk4_increment_Ok in Hv as (y1 & y2 & y3 & y4 & a2 & a3 & a4 & u1 & u2 & u3 & Hv).
  exists s, ti, y1, y2, y3, y4, a2, a3, a4, u1, u2, u3, v, row. cbv zeta.
  tauto.
Qed.

Lemma rk4_recurrence_witness :
  ∃ ts states,
    runge_kutta4 (const_field [1]) [0] (0, 0.3) 0.1 tt = Ok (ts, states)
    ∧ length states = length ts
    ∧ states !! 1%nat = Some [0.099999999999999992].
Proof.
  exists [0; 0.1; 0.2], [[0]; [0.099999999999999992]; [0.19999999999999998]].
  assert (Hrun : runge_kutta4 (const_field [1]) [0] (0, 0.3) 0.1 tt
                 = Ok ([0; 0.1; 0.2],
                       [[0]; [0.099999999999999992]; [0.19999999999999998]]))
    by (vm_compute; reflexivity).
  split; [exact Hrun|].
  destruct (rk4_recurrence _ _ _ _ _ _ _ _ Hrun) as (Hlen & _ & _).
  split; [exact Hlen | reflexivity].
Defined.

(** C1, counterexample. With the constant slope [1e308] and [dt = 1e-10] the
    code's first step gives the finite state [1e298], while the update as
    the specification words it, evaluated from the same state at the same time,
    overflows in the sum of the unscaled slopes and gives [infinity]. *)
Lemma rk4_recurrence_counterexample :
  ∃ ts states s ti s',
    runge_kutta4 (const_field [1e308]) [0] (0, 3e-10) 1e-10 tt = Ok (ts, states)
    ∧ states !! 0%nat = Some s ∧ ts !! 0%nat = Some ti
    ∧ states !! 1%nat = Some s'
    ∧ s' = [1.0000000000000001e298]
    ∧ spec_rk4_update (const_field [1e308]) tt 1e-10 s ti = Ok [infinity]
    ∧ spec_rk4_update (const_field [1e308]) tt 1e-10 s ti ≠ Ok s'.
Proof.
  exists [0; 1e-10; 2.0000000000000001e-10],
         [[0]; [1.0000000000000001e298]; [2.0000000000000002e298]],
         [0], 0, [1.0000000000000001e298].
  repeat split; try (vm_compute; reflexivity).
  vm_compute. intros H. discriminate H.
Qed.

(** The same divergence by rounding alone, at an everyday input: slope [1],
    [dt = 0.1]. *)
Example rk4_rounding_example :
  rk4_increment (const_field [1]) tt 0.1 [0] 0 = Ok [0.099999999999999992]
  ∧ spec_rk4_update (const_field [1]) tt 0.1 [0] 0 = Ok [0.1].
Proof. split; vm_compute; reflexivity. Qed.

(** ** Sample count and sample times *)

Lemma calc_length_Ok start stop step len :
  np.calc_length start stop step = Ok len →
  is_zero step = false
  ∧ ∃ q, np.safe_ceil_to_intp ((stop - start) / step) = Ok q
         ∧ (len = q
            ∨ (is_zero ((stop - start) / step) = true
               ∧ (stop - start =? 0) = false
               ∧ len = if get_sign ((stop - start) / step) then 0%Z else 1%Z)).
Proof.
  unfold np.calc_length. destruct (is_zero step); [discriminate|].
  intros H. split; [reflexivity|]. apply bind_Ok in H as (q & Hq & H).
  exists q. split; [exact Hq|].
  destruct (is_zero ((stop - start) / step)); simpl in H;
    [destruct (stop - start =? 0); simpl in H|]; injection H as <-; auto.
Qed.

(** C3 (as amended). A returned trajectory has
    [len(times) == len(states) == n ≥ 1], where [n] is the count [np.arange]
    derives from the binary64 quotient [(tf - t0)/dt]: that quotient rounded
    up, or [1] when the quotient is zero; the sample times are
    [times[0] = t0], [times[1] = t0 + dt] and
    [times[k] = t0 + k*((t0 + dt) - t0)] for [k ≥ 2], all in binary64
    arithmetic; every state has the length of the initial state; and for
    [t0 = 0], [tf = 2.0], [dt = 0.01] there are exactly 200 samples with
    [times[0] = 0.0] and [times[199] = 1.99]. *)
Theorem trajectory_shape {P : Type} (f : field P) state0 t0 tf dt params ts states :
  runge_kutta4 f state0 (t0, tf) dt params = Ok (ts, states) →
  ∃ n : nat,
    (1 ≤ n)%nat ∧ length ts = n ∧ length states = n
    ∧ np.calc_length t0 tf dt = Ok (Z.of_nat n)
    ∧ (np.safe_ceil_to_intp ((tf - t0) / dt) = Ok (Z.of_nat n)
       ∨ (n = 1%nat ∧ is_zero ((tf - t0) / dt) = true))
    ∧ ts !! 0%nat = Some t0
    ∧ ((1 < n)%nat → ts !! 1%nat = Some (t0 + dt))
    ∧ (∀ k, (2 ≤ k < n)%nat →
         ts !! k = Some (t0 + np.of_index k * ((t0 + dt) - t0)))
    ∧ Forall (λ s, length s = length state0) states
    ∧ (t0 = 0 → tf = 2.0 → dt = 0.01 →
       n = 200%nat ∧ ts !! 0%nat = Some 0.0 ∧ ts !! 199%nat = Some 1.99).
Proof.
  intros H. apply runge_kutta4_spec in H as (Ht & Hn & Hlen & Hrect & _ & _).
  pose proof Ht as Ht'. apply arange_Ok in Ht' as (len & Hl & Hts).
  pose proof (arange_length _ _ _ _ _ Ht Hl) as Hlts.
  assert (Hlen' : len = Z.of_nat (length ts)) by lia.
  exists (length ts). rewrite <- Hlen'.
  assert (Hitem : ∀ k, (k < length ts)%nat → ts !! k = Some (np.arange_item t0 dt k))
    by (intros k Hk; eapply arange_lookup; eauto).
  split; [exact Hn|]. split; [reflexivity|]. split; [exact Hlen|].
  split; [exact Hl|].
  split.
  { apply calc_length_Ok in Hl as (_ & q & Hq & [->|(Hz & _ & ->)]); [left; exact Hq|].
    right. split; [|exact Hz]. destruct (get_sign ((tf - t0) / dt)); lia. }
  split; [apply Hitem; lia|].
  split; [intros H1; apply Hitem; lia|].
  split.
  { intros k Hk. rewrite Hitem by lia.
    destruct k as [|[|k]]; [lia | lia | reflexivity]. }
  split; [exact Hrect|].
  intros -> -> ->. vm_compute in Hl. injection Hl as Hl.
  assert (Hn200 : length ts = 200%nat) by lia.
  split; [exact Hn200|].
  split; [apply Hitem; lia|].
  rewrite Hitem by lia. vm_compute. reflexivity.
Qed.

Lemma trajectory_shape_witness :
  match runge_kutta4 dc_motor_ode motor_state0 (0.0, 2.0) 0.01 motor_params with
  | Ok (ts, states) =>
      length ts = 200%nat ∧ length states = 200%nat
      ∧ ts !! 0%nat = Some 0.0 ∧ ts !! 199%nat = Some 1.99
      ∧ Forall (λ s, length s = 2%nat) states
  | Raise _ => False
  end.
Proof.
  destruct (runge_kutta4 dc_motor_ode motor_state0 (0.0, 2.0) 0.01 motor_params)
    as [[ts states]|e] eqn:Hrun.
  - destruct (trajectory_shape _ _ _ _ _ _ _ _ Hrun)
      as (n & _ & Hts & Hst & _ & _ & _ & _ & _ & Hdim & Hmain).
    destruct (Hmain eq_refl eq_refl eq_refl) as (Hn & H0 & H199).
    rewrite Hts, Hst, Hn. repeat split; auto.
  - vm_compute in Hrun. discriminate Hrun.
Defined.

(** C3, counterexample. For [t0 = 1], [tf = 1.3], [dt = 0.1] (so [t0 < tf]
    and [dt > 0]) the run returns four samples and the last one,
    [1.3000000000000003], is not below [tf]. *)
Lemma trajectory_shape_counterexample :
  (1 <? 1.3) = true ∧ (0 <? 0.1) = true
  ∧ ∃ ts states last,
      runge_kutta4 (const_field [0]) [0] (1, 1.3) 0.1 tt = Ok (ts, states)
      ∧ length ts = 4%nat
      ∧ ts !! (length ts - 1)%nat = Some last
      ∧ last = 1.3000000000000003
      ∧ (last <? 1.3) = false.
Proof.
  split; [reflexivity|]. split; [reflexivity|].
  exists [1; 1.1; 1.2000000000000002; 1.3000000000000003],
         [[0]; [0]; [0]; [0]], 1.3000000000000003.
  repeat split; vm_compute; reflexivity.
Qed.

(** Nor are the sample times strictly increasing in general: at [t0 = 1e16]
    the step [1] is absorbed by rounding. *)
Example arange_not_increasing :
  np.arange 1e16 (1e16 + 4) 1 = Ok [1e16; 1e16; 1e16; 1e16].
Proof. vm_compute. reflexivity. Qed.

(** ** Derivatives of the wrong length *)

Lemma broadcast_shape op a b c :
  np.broadcast op a b = Ok c →
  (length a = length b ∧ length c = length a)
  ∨ (length a ≠ length b ∧ length a = 1%nat ∧ length c = length b)
  ∨ (length a ≠ length b ∧ length a ≠ 1%nat ∧ length b = 1%nat
     ∧ length c = length a).
Proof.
  intros H. apply broadcast_Ok in H as [[E ->]|[(? & E & ->)|(? & ? & E & ->)]].
  - left. rewrite length_zip_with. lia.
  - right. left. rewrite length_map. tauto.
  - right. right. rewrite length_map. tauto.
Qed.

Lemma fit_row_shape d v row :
  np.fit_row d v = Ok row → length v = d ∨ length v = 1%nat.
Proof.
  unfold np.fit_row. repeat case_decide; intros Heq; try discriminate; tauto.
Qed.

Lemma bshape_one a b : bshape a b 1 → a = 1%nat ∧ b = 1%nat.
Proof. unfold bshape. lia. Qed.

Lemma bshape_left a b c : bshape a b c → a ≠ 1%nat → (b = a ∨ b = 1%nat) ∧ c = a.
Proof. unfold bshape. lia. Qed.

Lemma bshape_unit a b : bshape 1 a b → b = a.
Proof. unfold bshape. lia. Qed.

Lemma bshape_closed d a b c :
  bshape a b c → (a = d ∨ a = 1%nat) → (b = d ∨ b = 1%nat) → c = d ∨ c = 1%nat.
Proof. unfold bshape. lia. Qed.

Lemma stage_lengths_arith d m1 m2 m3 m4 a2 a3 a4 u1 u2 u3 v :
  bshape d m1 a2 → bshape d m2 a3 → bshape d m3 a4 →
  bshape m1 m2 u1 → bshape u1 m3 u2 → bshape u2 m4 u3 → bshape d u3 v →
  v = d ∨ v = 1%nat →
  (m1 = d ∨ m1 = 1%nat) ∧ (m2 = d ∨ m2 = 1%nat)
  ∧ (m3 = d ∨ m3 = 1%nat) ∧ (m4 = d ∨ m4 = 1%nat).
Proof.
  intros H2 H3 H4 H5 H6 H7 H8 Hv.
  destruct (decide (d = 1%nat)) as [->|Hd].
  - assert (v = 1%nat) as -> by (clear -Hv; lia).
    apply bshape_one in H8 as [_ ->]. apply bshape_one in H7 as [-> ->].
    apply bshape_one in H6 as [-> ->]. apply bshape_one in H5 as [-> ->].
    auto.
  - apply bshape_left in H2 as [E1 _]; [|exact Hd].
    apply bshape_left in H3 as [E2 _]; [|exact Hd].
    apply bshape_left in H4 as [E3 _]; [|exact Hd].
    apply bshape_left in H8 as [E8 _]; [|exact Hd].
    pose proof (bshape_closed d _ _ _ H5 E1 E2) as Eu1.
    pose proof (bshape_closed d _ _ _ H6 Eu1 E3) as Eu2.
    repeat split; auto.
    destruct (decide (u2 = 1%nat)) as [->|Hu2].
    + apply bshape_unit in H7 as ->. exact E8.
    + apply bshape_left in H7 as [E7 _]; [|exact Hu2].
      clear -E7 Eu2 Hu2. lia.
Qed.

Lemma broadcast_bshape op a b c :
  np.broadcast op a b = Ok c → bshape (length a) (length b) (length c).
Proof. apply broadcast_shape. Qed.

(** In an iteration whose result fits the row, each of the four derivatives
    has the length of the state or length 1. *)
Lemma rk4_stages_lengths {P : Type} (f : field P) params dt s ti y1 y2 y3 y4 v row :
  rk4_stages f params dt s ti y1 y2 y3 y4 v →
  np.fit_row (length s) v = Ok row →
  Forall (λ y, length y = length s ∨ length y = 1%nat) [y1; y2; y3; y4].
Proof.
  intros (a2 & a3 & a4 & u1 & u2 & u3 & _ & H2 & _ & H3 & _ & H4 & _ & H5 & H6 & H7 & H8) Hf.
  apply fit_row_shape in Hf.
  apply broadcast_bshape in H2, H3, H4, H5, H6, H7, H8.
  unfold np.divs, np.muls, np.smul in *. rewrite !length_map in *.
  destruct (stage_lengths_arith _ _ _ _ _ _ _ _ _ _ _ _ H2 H3 H4 H5 H6 H7 H8 Hf)
    as (E1 & E2 & E3 & E4).
  repeat (apply Forall_cons; split; [assumption|]). apply Forall_nil. exact I.
Qed.

(** ** Binary64 facts

    The operations on [float] are related to their specification on
    [spec_float] by the library's [FloatAxioms]. *)

Lemma Prim2SF_two : Prim2SF 2 = S754_finite false 4503599627370496 (-51).
Proof. vm_compute. reflexivity. Qed.
Lemma Prim2SF_six : ∃ m e, Prim2SF 6 = S754_finite false m e.
Proof. do 2 eexists. vm_compute. reflexivity. Qed.

Lemma is_zero_spec x : is_zero x = true ↔ ∃ s, Prim2SF x = S754_zero s.
Proof.
  unfold is_zero. rewrite FloatAxioms.eqb_spec. change (Prim2SF zero) with (S754_zero false).
  destruct (Prim2SF x) as [s|s| |s m e]; simpl; split; try destruct s; try discriminate; eauto.
  all: intros [s' H]; discriminate.
Qed.

Lemma is_zero_Prim2SF x s : Prim2SF x = S754_zero s → is_zero x = true.
Proof. intros H. apply is_zero_spec. eauto. Qed.

(** ** Arithmetic on zeros *)

Lemma mul_zero_l x c s m e :
  is_zero x = true → Prim2SF c = S754_finite s m e → is_zero (x * c) = true.
Proof.
  intros Hx Hc. apply is_zero_spec in Hx as [sx Hx]. apply is_zero_spec.
  rewrite mul_spec, Hx, Hc. simpl. eauto.
Qed.

Lemma mul_zero_r x c s m e :
  is_zero x = true → Prim2SF c = S754_finite s m e → is_zero (c * x) = true.
Proof.
  intros Hx Hc. apply is_zero_spec in Hx as [sx Hx]. apply is_zero_spec.
  rewrite mul_spec, Hx, Hc. simpl. eauto.
Qed.

Lemma div_zero_l x c s m e :
  is_zero x = true → Prim2SF c = S754_finite s m e → is_zero (x / c) = true.
Proof.
  intros Hx Hc. apply is_zero_spec in Hx as [sx Hx]. apply is_zero_spec.
  rewrite div_spec, Hx, Hc. simpl. eauto.
Qed.

Lemma add_zero_zero x y :
  is_zero x = true → is_zero y = true → is_zero (x + y) = true.
Proof.
  intros Hx Hy. apply is_zero_spec in Hx as [sx Hx]. apply is_zero_spec in Hy as [sy Hy].
  apply is_zero_spec. rewrite add_spec, Hx, Hy. destruct sx, sy; simpl; eauto.
Qed.

Lemma add_zero_r x z : is_zero z = true → same_number (x + z) x.
Proof.
  intros Hz. pose proof Hz as Hz'. apply is_zero_spec in Hz' as [sz Hz'].
  destruct (Prim2SF x) as [s|s| |s m e] eqn:Hx.
  - right. split; [|eapply is_zero_Prim2SF; eauto].
    apply add_zero_zero; [eapply is_zero_Prim2SF; eauto | exact Hz].
  - left. apply Prim2SF_inj. rewrite add_spec, Hx, Hz'. reflexivity.
  - left. apply Prim2SF_inj. rewrite add_spec, Hx, Hz'. reflexivity.
  - left. apply Prim2SF_inj. rewrite add_spec, Hx, Hz'. reflexivity.
Qed.

Lemma add_zero_r_exact x z : is_zero z = true → x ≠ neg_zero → x + z = x.
Proof.
  intros Hz Hx. apply is_zero_spec in Hz as [sz Hz].
  apply Prim2SF_inj. rewrite add_spec, Hz.
  destruct (Prim2SF x) as [s|s| |s m e] eqn:Ex; try reflexivity.
  destruct s.
  - exfalso. apply Hx. apply Prim2SF_inj. rewrite Ex. reflexivity.
  - destruct sz; reflexivity.
Qed.

Lemma same_number_refl x : same_number x x.
Proof. left. reflexivity. Qed.

Lemma same_number_trans x y z : same_number x y → same_number y z → same_number x z.
Proof.
  intros [->|[Hx Hy]] [->|[Hy' Hz]]; unfold same_number; auto.
Qed.

(** Numbers that denote the same number compare equal, unless they are NaN. *)
Lemma same_number_eqb x y : same_number x y → is_nan x = false → (x =? y) = true.
Proof.
  intros [->|[Hx Hy]] Hn.
  - unfold is_nan in Hn. destruct (y =? y); [reflexivity | discriminate].
  - apply is_zero_spec in Hx as [sx Hx]. apply is_zero_spec in Hy as [sy Hy].
    rewrite FloatAxioms.eqb_spec, Hx, Hy. reflexivity.
Qed.

(** A run with two samples or more has a finite, non-zero step. *)
Lemma calc_length_step_finite t0 tf dt len :
  np.calc_length t0 tf dt = Ok len → (2 ≤ len)%Z →
  ∃ s m e, Prim2SF dt = S754_finite s m e.
Proof.
  intros H Hlen. apply calc_length_Ok in H as (Hz & q & Hq & Hcase).
  assert (Hq2 : (2 ≤ q)%Z).
  { destruct Hcase as [->|(_ & _ & ->)]; [exact Hlen|].
    destruct (get_sign ((tf - t0) / dt)); lia. }
  unfold np.safe_ceil_to_intp in Hq. rewrite div_spec in Hq.
  destruct (Prim2SF dt) as [s|s| |s m e] eqn:Hdt.
  - apply is_zero_Prim2SF in Hdt. congruence.
  - exfalso. destruct (Prim2SF (tf - t0)) as [s'|s'| |s' m' e']; simpl in Hq;
      try discriminate; injection Hq as <-; lia.
  - exfalso. destruct (Prim2SF (tf - t0)); simpl in Hq; discriminate.
  - eauto.
Qed.

Lemma zero_field_zero_valued {P : Type} : zero_valued (@zero_field P).
Proof.
  intros s t params. exists (replicate (length s) 0). split; [reflexivity|].
  split; [apply length_replicate|].
  apply Forall_forall. intros x Hx. apply elem_of_replicate in Hx as [-> _]. reflexivity.
Qed.

Lemma all_zero_map (g : float → float) v :
  (∀ x, is_zero x = true → is_zero (g x) = true) → all_zero v → all_zero (map g v).
Proof.
  intros Hg Hv. unfold all_zero in *. rewrite Forall_forall in *. intros y Hy.
  apply list_elem_of_fmap in Hy as (x & -> & Hx). auto.
Qed.

Lemma add_all_zero a b :
  length a = length b → all_zero a → all_zero b →
  ∃ c, np.add a b = Ok c ∧ length c = length a ∧ all_zero c.
Proof.
  intros Hlen Ha Hb. exists (zip_with PrimFloat.add a b).
  split; [apply broadcast_same; exact Hlen|].
  split; [rewrite length_zip_with; lia|].
  unfold all_zero in *. revert b Hlen Hb.
  induction Ha as [|x a Hx Ha IH]; intros [|y b] Hlen Hb; simpl;
    try constructor; try discriminate.
  - apply Forall_cons in Hb as [Hy _]. apply add_zero_zero; assumption.
  - apply Forall_cons in Hb as [_ Hb]. apply IH; [simpl in Hlen; lia | exact Hb].
Qed.

Lemma add_state_zero s z :
  length s = length z → all_zero z →
  ∃ s', np.add s z = Ok s' ∧ Forall2 same_number s' s
        ∧ (Forall (λ x, x ≠ neg_zero) s → s' = s).
Proof.
  intros Hlen Hz. exists (zip_with PrimFloat.add s z).
  split; [apply broadcast_same; exact Hlen|].
  unfold all_zero in Hz. revert s Hlen.
  induction Hz as [|x z Hx Hz IH]; intros [|y s] Hlen; simpl; try discriminate.
  - split; [constructor | reflexivity].
  - destruct (IH s ltac:(simpl in Hlen; lia)) as [IH1 IH2]. split.
    + constructor; [apply add_zero_r; exact Hx | exact IH1].
    + intros Hs. apply Forall_cons in Hs as [Hy Hs].
      rewrite (add_zero_r_exact y x Hx Hy), (IH2 Hs). reflexivity.
Qed.

(** One iteration under a zero-valued field with a finite step: the
    increment leaves the state where it was. *)
Lemma rk4_increment_zero {P : Type} (f : field P) params dt s ti sg m e :
  zero_valued f → Prim2SF dt = S754_finite sg m e →
  ∃ v, rk4_increment f params dt s ti = Ok v ∧ Forall2 same_number v s
       ∧ (Forall (λ x, x ≠ neg_zero) s → v = s).
Proof.
  intros Hf Hdt.
  assert (Hk : ∀ y, all_zero y → all_zero (np.muls y dt)).
  { intros y Hy. apply all_zero_map; [|exact Hy]. intros x Hx. eapply mul_zero_l; eauto. }
  assert (H2 : ∀ y, all_zero y → all_zero (np.divs y 2)).
  { intros y Hy. apply all_zero_map; [|exact Hy]. intros x Hx.
    eapply div_zero_l; [exact Hx | exact Prim2SF_two]. }
  assert (H2' : ∀ y, all_zero y → all_zero (np.smul 2 y)).
  { intros y Hy. apply all_zero_map; [|exact Hy]. intros x Hx.
    eapply mul_zero_r; [exact Hx | exact Prim2SF_two]. }
  assert (H6 : ∀ y, all_zero y → all_zero (np.divs y 6)).
  { intros y Hy. apply all_zero_map; [|exact Hy]. intros x Hx.
    destruct Prim2SF_six as (m6 & e6 & E6). eapply div_zero_l; eauto. }
  assert (Hstate : ∀ z, length z = length s → all_zero z →
            ∃ a, np.add s z = Ok a ∧ length a = length s).
  { intros z Hl Hz. destruct (add_state_zero s z (eq_sym Hl) Hz) as (a & Ha & Hrel & _).
    exists a. split; [exact Ha|]. apply Forall2_length in Hrel. exact Hrel. }
  unfold rk4_increment.
  destruct (Hf s ti params) as (y1 & -> & L1 & Z1). cbn [mbind result_bind].
  destruct (Hstate (np.divs (np.muls y1 dt) 2)) as (a2 & -> & La2);
    [unfold np.divs, np.muls; rewrite !length_map; exact L1 | auto |].
  cbn [mbind result_bind].
  destruct (Hf a2 (ti + dt / 2) params) as (y2 & -> & L2 & Z2). cbn [mbind result_bind].
  destruct (Hstate (np.divs (np.muls y2 dt) 2)) as (a3 & -> & La3);
    [unfold np.divs, np.muls; rewrite !length_map; lia | auto |].
  cbn [mbind result_bind].
  destruct (Hf a3 (ti + dt / 2) params) as (y3 & -> & L3 & Z3). cbn [mbind result_bind].
  destruct (Hstate (np.muls y3 dt)) as (a4 & -> & La4);
    [unfold np.muls; rewrite !length_map; lia | auto |].
  cbn [mbind result_bind].
  destruct (Hf a4 (ti + dt) params) as (y4 & -> & L4 & Z4). cbn [mbind result_bind].
  destruct (add_all_zero (np.muls y1 dt) (np.smul 2 (np.muls y2 dt)))
    as (u1 & -> & Lu1 & Zu1);
    [unfold np.smul, np.muls; rewrite !length_map; lia | auto | auto |].
  cbn [mbind result_bind].
  destruct (add_all_zero u1 (np.smul 2 (np.muls y3 dt))) as (u2 & -> & Lu2 & Zu2);
    [unfold np.smul, np.muls in *; rewrite !length_map in *; lia | auto | auto |].
  cbn [mbind result_bind].
  destruct (add_all_zero u2 (np.muls y4 dt)) as (u3 & -> & Lu3 & Zu3);
    [unfold np.smul, np.muls in *; rewrite !length_map in *; lia | auto | auto |].
  cbn [mbind result_bind].
  apply add_state_zero; [|auto].
  unfold np.divs, np.smul, np.muls in *. rewrite !length_map in *. lia.
Qed.

Lemma Forall2_same_number_trans a b c :
  Forall2 same_number a b → Forall2 same_number b c → Forall2 same_number a c.
Proof.
  intros Hab. revert c. induction Hab as [|x y a b Hxy Hab IH]; intros c Hbc.
  - inversion Hbc. constructor.
  - inversion Hbc as [|y' z b' c' Hyz Hbc']; subst. constructor.
    + eapply same_number_trans; eauto.
    + apply IH. exact Hbc'.
Qed.

Lemma keeps_refl state0 : keeps state0 state0.
Proof.
  split; [|reflexivity]. induction state0; constructor; auto using same_number_refl.
Qed.

Lemma rk4_loop_zero {P : Type} (f : field P) params dt ts state0 sg m e k :
  zero_valued f → Prim2SF dt = S754_finite sg m e →
  ∀ i0 st,
    length st = length ts → (i0 + k < length ts)%nat →
    rect (length state0) st →
    (∀ j, (j ≤ i0)%nat → ∃ row, st !! j = Some row ∧ keeps state0 row) →
    ∃ st',
      for_each (rk4_body f params dt ts) (seq i0 k) st = Ok st'
      ∧ length st' = length st
      ∧ ∀ j, (j ≤ i0 + k)%nat → ∃ row, st' !! j = Some row ∧ keeps state0 row.
Proof.
  intros Hf Hdt. induction k as [|k IH]; intros i0 st Hlen Hk Hrect Hinv.
  - exists st. repeat split; auto. intros j Hj. apply Hinv. lia.
  - cbn [seq for_each].
    destruct (Hinv i0 ltac:(lia)) as (s & Hs & Hrel & Hex).
    destruct (lookup_lt_is_Some_2 ts i0 ltac:(lia)) as [ti Hti].
    destruct (lookup_lt_is_Some_2 st (i0 + 1) ltac:(lia)) as [old Hold].
    destruct (rk4_increment_zero f params dt s ti sg m e Hf Hdt)
      as (v & Hv & Hvs & Hvex).
    assert (Hlv : length v = length old).
    { rewrite (rect_lookup _ _ _ _ Hrect Hold).
      rewrite (Forall2_length _ _ _ Hvs). apply (Forall2_length _ _ _ Hrel). }
    assert (Hbody : rk4_body f params dt ts i0 st = Ok (<[(i0 + 1)%nat := v]> st)).
    { unfold rk4_body, np.getitem. rewrite Hs, Hti. cbn [mbind result_bind].
      rewrite Hv. cbn [mbind result_bind]. unfold np.setrow.
      rewrite Hold, <- Hlv, fit_row_same. reflexivity. }
    rewrite Hbody. cbn [mbind result_bind].
    assert (Hkv : keeps state0 v).
    { split; [eapply Forall2_same_number_trans; eauto|].
      intros Hnz. specialize (Hex Hnz). subst s. apply Hvex. exact Hnz. }
    destruct (IH (S i0) (<[(i0 + 1)%nat := v]> st)) as (st' & Hloop & Hlen' & Hinv').
    + rewrite length_insert. exact Hlen.
    + lia.
    + apply Forall_insert; [exact Hrect|].
      rewrite Hlv. eapply rect_lookup; eauto.
    + intros j Hj. destruct (decide (j = (i0 + 1)%nat)) as [->|Hne].
      * exists v. split; [|exact Hkv]. apply list_lookup_insert_eq. lia.
      * rewrite list_lookup_insert_ne by lia. apply Hinv. lia.
    + exists st'. split; [exact Hloop|]. rewrite Hlen', length_insert.
      split; [reflexivity|]. intros j Hj. apply Hinv'. lia.
Qed.

(** C8. Under a field that is identically zero, whenever the time grid is
    not empty (in particular for [t0 < tf] and [dt > 0] with a finite
    quotient), [runge_kutta4] returns a trajectory in which every state
    equals the initial state: each component is the same number as the
    corresponding component of [state0], and the very same binary64 value
    when [state0] has no negative zero (a component [-0.0] may come back as
    [0.0], which compares equal to it). *)
Theorem zero_field_trajectory {P : Type} (f : field P) state0 t0 tf dt params ts :
  zero_valued f →
  np.arange t0 tf dt = Ok ts → ts ≠ [] →
  ∃ states,
    runge_kutta4 f state0 (t0, tf) dt params = Ok (ts, states)
    ∧ length states = length ts
    ∧ Forall (λ s, Forall2 same_number s state0) states
    ∧ (Forall (λ x, x ≠ neg_zero) state0 → Forall (λ s, s = state0) states).
Proof.
  intros Hf Ht Hne.
  set (st0 := <[0%nat := state0]> (np.zeros (length ts) (length state0))).
  assert (Hn : (1 ≤ length ts)%nat) by (destruct ts; [congruence | simpl; lia]).
  assert (Hlen0 : length st0 = length ts).
  { unfold st0, np.zeros. rewrite length_insert, length_replicate. reflexivity. }
  assert (Hrect0 : rect (length state0) st0).
  { apply Forall_insert; [apply rect_zeros | reflexivity]. }
  assert (Hinv0 : ∀ j, (j ≤ 0)%nat → ∃ row, st0 !! j = Some row ∧ keeps state0 row).
  { intros j Hj. assert (j = 0%nat) as -> by lia. exists state0.
    split; [|apply keeps_refl]. apply list_lookup_insert_eq.
    unfold np.zeros. rewrite length_replicate. lia. }
  assert (Hloop : ∃ st',
             for_each (rk4_body f params dt ts) (seq 0 (length ts - 1)) st0 = Ok st'
             ∧ length st' = length st0
             ∧ ∀ j, (j ≤ length ts - 1)%nat → ∃ row, st' !! j = Some row ∧ keeps state0 row).
  { destruct (decide (length ts = 1%nat)) as [E1|E1].
    - rewrite E1. simpl. exists st0. repeat split; auto.
    - pose proof Ht as Ht'. apply arange_Ok in Ht' as (len & Hl & _).
      pose proof (arange_length _ _ _ _ _ Ht Hl) as Hlts.
      destruct (calc_length_step_finite _ _ _ _ Hl ltac:(lia)) as (sg & m & e & Hdt).
      apply (rk4_loop_zero f params dt ts state0 sg m e (length ts - 1) Hf Hdt 0%nat st0);
        auto. lia. }
  destruct Hloop as (states & Hrun & Hlen & Hinv).
  exists states. split; [apply runge_kutta4_Ok; auto|].
  split; [congruence|].
  assert (Hall : ∀ i row, states !! i = Some row → keeps state0 row).
  { intros i row Hi. pose proof (lookup_lt_Some _ _ _ Hi) as Hlt.
    destruct (Hinv i ltac:(lia)) as (row' & Hi' & Hk). congruence. }
  split.
  - apply Forall_lookup. intros i row Hi. apply (Hall i row Hi).
  - intros Hnz. apply Forall_lookup. intros i row Hi. apply (Hall i row Hi). exact Hnz.
Qed.

Lemma zero_field_trajectory_witness :
  ∃ states,
    runge_kutta4 (@zero_field unit) [1.5; -2.25] (0, 0.5) 0.1 tt
    = Ok ([0; 0.1; 0.2; 0.30000000000000004; 0.4], states)
    ∧ length states = 5%nat
    ∧ Forall (λ s, Forall2 same_number s [1.5; -2.25]) states.
Proof.
  destruct (zero_field_trajectory (@zero_field unit) [1.5; -2.25] 0 0.5 0.1 tt
              [0; 0.1; 0.2; 0.30000000000000004; 0.4])
    as (states & Hrun & Hlen & Hall & _).
  - apply zero_field_zero_valued.
  - vm_compute. reflexivity.
  - discriminate.
  - exists states. auto.
Defined.

(** A negative zero in the initial state is the one place where the bits
    change. *)
Example zero_field_negative_zero :
  runge_kutta4 (@zero_field unit) [-0] (0, 1) 0.5 tt = Ok ([0; 0.5], [[-0]; [0]]).
Proof. vm_compute. reflexivity. Qed.

(** ** Signs of differences and quotients *)

Lemma iter_xO_value m d : Z.pos (Pos.iter xO m d) = (Z.pos m * 2 ^ Z.pos d)%Z.
Proof.
  induction d as [|d IH] using Pos.peano_ind.
  - simpl. lia.
  - rewrite Pos.iter_succ, Pos2Z.inj_xO, IH, Pos2Z.inj_succ, Z.pow_succ_r by lia. lia.
Qed.

Lemma shl_align_value m e e' :
  (e' ≤ e)%Z → Z.pos (fst (shl_align m e e')) = (Z.pos m * 2 ^ (e - e'))%Z.
Proof.
  intros Hle. unfold shl_align. destruct (e' - e)%Z as [|d|d] eqn:Hd.
  - assert (e - e' = 0)%Z as -> by lia. simpl. lia.
  - lia.
  - assert (e - e' = Z.pos d)%Z as -> by lia. simpl fst. apply iter_xO_value.
Qed.

Lemma digits2_pos_bounds m :
  (2 ^ (Z.pos (digits2_pos m) - 1) ≤ Z.pos m < 2 ^ Z.pos (digits2_pos m))%Z.
Proof.
  induction m as [m IH|m IH|]; simpl digits2_pos.
  - rewrite Pos2Z.inj_succ, Z.pow_succ_r by lia.
    replace (Z.succ (Z.pos (digits2_pos m)) - 1)%Z
      with (Z.succ (Z.pos (digits2_pos m) - 1)) by lia.
    rewrite Z.pow_succ_r by lia. lia.
  - rewrite Pos2Z.inj_succ, Z.pow_succ_r by lia.
    replace (Z.succ (Z.pos (digits2_pos m)) - 1)%Z
      with (Z.succ (Z.pos (digits2_pos m) - 1)) by lia.
    rewrite Z.pow_succ_r by lia. lia.
  - simpl. lia.
Qed.

(** What validity says about a finite binary64 number. *)
Lemma valid_binary_finite s m e :
  valid_binary (S754_finite s m e) = true →
  (Z.pos m < 2 ^ 53)%Z ∧ (emin ≤ e)%Z ∧ (e = emin ∨ 2 ^ 52 ≤ Z.pos m)%Z.
Proof.
  unfold valid_binary, SpecFloat.valid_binary, bounded, canonical_mantissa, fexp.
  intros H. apply andb_prop in H as [H _]. apply Z.eqb_eq in H.
  pose proof (digits2_pos_bounds m) as [Hlo Hhi].
  assert (Hd : (Z.pos (digits2_pos m) ≤ prec)%Z) by lia.
  split.
  { eapply Z.lt_le_trans; [exact Hhi|]. apply Z.pow_le_mono_r; [lia | exact Hd]. }
  split; [lia|].
  destruct (Z.eq_dec e emin) as [He|He]; [left; exact He | right].
  assert (Z.pos (digits2_pos m) = prec) as Hp by lia.
  rewrite Hp in Hlo. exact Hlo.
Qed.

Lemma pow2_ge_2 k : (1 ≤ k)%Z → (2 ≤ 2 ^ k)%Z.
Proof.
  intros Hk. change 2%Z with (2 ^ 1)%Z at 1. apply Z.pow_le_mono_r; lia.
Qed.

(** On valid numbers a larger exponent means a larger magnitude. *)
Lemma finite_magnitude_lt m1 e1 m2 e2 :
  valid_binary (S754_finite false m1 e1) = true →
  valid_binary (S754_finite false m2 e2) = true →
  (e1 < e2)%Z →
  (Z.pos m1 * 2 ^ (e1 - e1) < Z.pos m2 * 2 ^ (e2 - e1))%Z.
Proof.
  intros V1 V2 Hlt.
  apply valid_binary_finite in V1 as (Hm1 & He1 & _).
  apply valid_binary_finite in V2 as (_ & _ & [He2|Hm2]); [lia|].
  rewrite Z.sub_diag, Z.pow_0_r, Z.mul_1_r.
  pose proof (pow2_ge_2 (e2 - e1) ltac:(lia)) as Hp.
  change (2 ^ 53)%Z with 9007199254740992%Z in Hm1.
  change (2 ^ 52)%Z with 4503599627370496%Z in Hm2.
  nia.
Qed.

Lemma valid_binary_sign s s' m e :
  valid_binary (S754_finite s m e) = valid_binary (S754_finite s' m e).
Proof. reflexivity. Qed.

Lemma SFcompare_finite s1 m1 e1 s2 m2 e2 :
  valid_binary (S754_finite s1 m1 e1) = true →
  valid_binary (S754_finite s2 m2 e2) = true →
  SFcompare (S754_finite s1 m1 e1) (S754_finite s2 m2 e2)
  = Some (aligned s1 m1 e1 (Z.min e1 e2) ?= aligned s2 m2 e2 (Z.min e1 e2))%Z.
Proof.
  intros V1 V2. unfold aligned.
  rewrite !shl_align_value by lia.
  rewrite (valid_binary_sign s1 false) in V1. rewrite (valid_binary_sign s2 false) in V2.
  assert (H1 : (0 < Z.pos m1 * 2 ^ (e1 - Z.min e1 e2))%Z)
    by (apply Z.mul_pos_pos; [lia | apply Z.pow_pos_nonneg; lia]).
  assert (H2 : (0 < Z.pos m2 * 2 ^ (e2 - Z.min e1 e2))%Z)
    by (apply Z.mul_pos_pos; [lia | apply Z.pow_pos_nonneg; lia]).
  assert (Hcmp : (match e1 ?= e2 with
                  | Eq => Pos.compare_cont Eq m1 m2
                  | Lt => Lt
                  | Gt => Gt
                  end
                  = (Z.pos m1 * 2 ^ (e1 - Z.min e1 e2)
                     ?= Z.pos m2 * 2 ^ (e2 - Z.min e1 e2)))%Z).
  { destruct (Z.compare_spec e1 e2) as [->|Hlt|Hgt].
    - rewrite Z.min_id, Z.sub_diag, Z.pow_0_r, !Z.mul_1_r. reflexivity.
    - symmetry. apply Z.compare_lt_iff. rewrite Z.min_l by lia.
      apply finite_magnitude_lt; assumption.
    - symmetry. apply Z.compare_gt_iff. rewrite Z.min_r by lia.
      apply finite_magnitude_lt; assumption. }
  destruct s1, s2; simpl; f_equal.
  - rewrite Z.compare_opp, (Z.compare_antisym (Z.pos m1 * _) (Z.pos m2 * _)), <- Hcmp.
    destruct (e1 ?= e2)%Z; reflexivity.
  - symmetry. apply Z.compare_lt_iff. lia.
  - symmetry. apply Z.compare_gt_iff. lia.
  - exact Hcmp.
Qed.

Lemma binary_round_aux_sign s m e l :
  match binary_round_aux prec emax s m e l with
  | S754_nan => True
  | S754_zero s' | S754_infinity s' | S754_finite s' _ _ => s' = s
  end.
Proof.
  unfold binary_round_aux.
  destruct (shr_fexp prec emax m e l) as [mrs e'].
  destruct (shr_fexp prec emax _ e' loc_Exact) as [mrs' e''].
  destruct (shr_m mrs'); [| destruct (Z.leb e'' (emax - prec)) |]; simpl; auto.
Qed.

Lemma binary_normalize_signed z e :
  SFsigned (Z.ltb z 0) (binary_normalize prec emax z e false).
Proof.
  destruct z as [|p|p]; simpl; [exact I | |].
  - unfold binary_round. destruct (shl_align p e _) as [mz ez].
    pose proof (binary_round_aux_sign false (Z.pos mz) ez loc_Exact) as H.
    destruct (binary_round_aux prec emax false (Z.pos mz) ez loc_Exact); simpl; auto.
  - unfold binary_round. destruct (shl_align p e _) as [mz ez].
    pose proof (binary_round_aux_sign true (Z.pos mz) ez loc_Exact) as H.
    destruct (binary_round_aux prec emax true (Z.pos mz) ez loc_Exact); simpl; auto.
Qed.

(** [x ≤ y] makes [x - y] NaN, zero or negative. *)
Lemma SFsub_nonpos x y :
  valid_binary x = true → valid_binary y = true →
  SFleb x y = true → SFsigned true (SF64sub x y).
Proof.
  intros Vx Vy. unfold SFleb.
  destruct x as [sx|sx| |sx mx ex], y as [sy|sy| |sy my ey];
    try (simpl; try destruct sx; try destruct sy; simpl; (discriminate || auto); fail).
  rewrite (SFcompare_finite _ _ _ _ _ _ Vx Vy). fold (aligned sx mx ex (Z.min ex ey)).
  intros Hc. change (SF64sub (S754_finite sx mx ex) (S754_finite sy my ey))
    with (binary_normalize prec emax
            (aligned sx mx ex (Z.min ex ey) - aligned sy my ey (Z.min ex ey))
            (Z.min ex ey) false).
  set (a := aligned sx mx ex (Z.min ex ey)) in *.
  set (b := aligned sy my ey (Z.min ex ey)) in *.
  pose proof (binary_normalize_signed (a - b) (Z.min ex ey)) as H.
  destruct (Z.compare_spec a b) as [E|E|E]; try discriminate.
  - replace (a - b)%Z with 0%Z by lia. exact I.
  - replace (a - b <? 0)%Z with true in H by (symmetry; apply Z.ltb_lt; lia). exact H.
Qed.

(** [y ≤ x] makes [x - y] NaN, zero or positive. *)
Lemma SFsub_nonneg x y :
  valid_binary x = true → valid_binary y = true →
  SFleb y x = true → SFsigned false (SF64sub x y).
Proof.
  intros Vx Vy. unfold SFleb.
  destruct x as [sx|sx| |sx mx ex], y as [sy|sy| |sy my ey];
    try (simpl; try destruct sx; try destruct sy; simpl; (discriminate || auto); fail).
  rewrite (SFcompare_finite _ _ _ _ _ _ Vy Vx). rewrite Z.min_comm.
  intros Hc. change (SF64sub (S754_finite sx mx ex) (S754_finite sy my ey))
    with (binary_normalize prec emax
            (aligned sx mx ex (Z.min ex ey) - aligned sy my ey (Z.min ex ey))
            (Z.min ex ey) false).
  set (a := aligned sx mx ex (Z.min ex ey)) in *.
  set (b := aligned sy my ey (Z.min ex ey)) in *.
  pose proof (binary_normalize_signed (a - b) (Z.min ex ey)) as H.
  destruct (Z.compare_spec b a) as [E|E|E]; try discriminate.
  - replace (a - b)%Z with 0%Z by lia. exact I.
  - replace (a - b <? 0)%Z with false in H by (symmetry; apply Z.ltb_ge; lia). exact H.
Qed.

(** The sign of a quotient is the product of the signs, unless the quotient
    is NaN. *)
Lemma SFdiv_signbit x y :
  match SFsignbit (SF64div x y) with
  | None => True
  | Some s => ∃ sx sy, SFsignbit x = Some sx ∧ SFsignbit y = Some sy ∧ s = xorb sx sy
  end.
Proof.
  destruct x as [sx|sx| |sx mx ex], y as [sy|sy| |sy my ey]; simpl; eauto.
  unfold SF64div, SFdiv.
  destruct (SFdiv_core_binary prec emax (Z.pos mx) ex (Z.pos my) ey) as [[mz ez] lz].
  pose proof (binary_round_aux_sign (xorb sx sy) mz ez lz) as H.
  destruct (binary_round_aux prec emax (xorb sx sy) mz ez lz); simpl; subst; eauto.
Qed.

Lemma get_sign_neg_zero v : Prim2SF v = S754_zero true → get_sign v = true.
Proof.
  intros Hv. unfold get_sign. rewrite (is_zero_Prim2SF _ _ Hv).
  rewrite ltb_spec, div_spec, Hv. reflexivity.
Qed.

Lemma ceil_finite_negative m e : (np.ceil_finite true m e ≤ 0)%Z.
Proof.
  unfold np.ceil_finite. destruct (0 <=? e)%Z eqn:He.
  - apply Z.leb_le in He. pose proof (Z.pow_nonneg 2 e ltac:(lia)). nia.
  - apply Z.leb_gt in He.
    pose proof (Z.pow_pos_nonneg 2 (- e) ltac:(lia) ltac:(lia)) as Hp.
    pose proof (Z.div_pos (Z.pos m) (2 ^ (- e)) ltac:(lia) Hp). lia.
Qed.

(** The conversion to [npy_intp] keeps a number that is not positive from
    being positive, and changes a positive number only when it is [2^63]. *)
Lemma to_intp_nonpos c : (c ≤ 0)%Z → (np.to_intp c ≤ 0)%Z.
Proof.
  unfold np.to_intp, np.intp_min, np.intp_max. intros Hc.
  destruct ((- 2 ^ 63 <=? c)%Z && (c <=? 2 ^ 63 - 1)%Z); lia.
Qed.

Lemma to_intp_pos c :
  (1 ≤ c ≤ np.intp_max_as_double)%Z →
  (1 ≤ np.to_intp c)%Z ∨ (c = 2 ^ 63 ∧ np.to_intp c = - 2 ^ 63)%Z.
Proof.
  unfold np.to_intp, np.intp_min, np.intp_max, np.intp_max_as_double. intros Hc.
  destruct (- 2 ^ 63 <=? c)%Z eqn:E1; destruct (c <=? 2 ^ 63 - 1)%Z eqn:E2; simpl;
    try apply Z.leb_le in E1; try apply Z.leb_gt in E1;
    try apply Z.leb_le in E2; try apply Z.leb_gt in E2; lia.
Qed.

Lemma opposed_signs t0 tf dt :
  opposed t0 tf dt →
  ∃ sg, SFsigned sg (Prim2SF (tf - t0)) ∧ SFsignbit (Prim2SF dt) = Some (negb sg)
        ∧ ∀ s, Prim2SF dt ≠ S754_zero s.
Proof.
  intros [[Hle Hdt]|[Hle Hdt]].
  - exists true. rewrite leb_spec in Hle. rewrite ltb_spec in Hdt.
    split; [rewrite sub_spec; apply SFsub_nonpos; auto using Prim2SF_valid|].
    change (Prim2SF 0) with (S754_zero false) in Hdt. unfold SFltb in Hdt.
    destruct (Prim2SF dt) as [s|s| |s m e]; try destruct s; simpl in *;
      try discriminate; split; auto; intros s' Hs'; discriminate.
  - exists false. rewrite leb_spec in Hle. rewrite ltb_spec in Hdt.
    split; [rewrite sub_spec; apply SFsub_nonneg; auto using Prim2SF_valid|].
    change (Prim2SF 0) with (S754_zero false) in Hdt. unfold SFltb in Hdt.
    destruct (Prim2SF dt) as [s|s| |s m e]; try destruct s; simpl in *;
      try discriminate; split; auto; intros s' Hs'; discriminate.
Qed.

(** When the span and the step are opposed, [np.arange] counts no sample. *)
Lemma calc_length_opposed t0 tf dt len :
  opposed t0 tf dt → np.calc_length t0 tf dt = Ok len → (len ≤ 0)%Z.
Proof.
  intros Hopp H. apply opposed_signs in Hopp as (sg & HN & HD & HD0).
  apply calc_length_Ok in H as (_ & q & Hq & Hcase).
  unfold np.safe_ceil_to_intp in Hq.
  pose proof (SFdiv_signbit (Prim2SF (tf - t0)) (Prim2SF dt)) as Hsign.
  rewrite <- div_spec in Hsign.
  assert (Hnz : (tf - t0 =? 0) = false →
                SFsignbit (Prim2SF (tf - t0)) = Some sg
                ∨ Prim2SF (tf - t0) = S754_nan).
  { rewrite FloatAxioms.eqb_spec. change (Prim2SF 0) with (S754_zero false).
    destruct (Prim2SF (tf - t0)) as [s|s| |s m e]; simpl in *; intros E;
      try discriminate; subst; auto. }
  destruct (Prim2SF ((tf - t0) / dt)) as [sv|sv| |sv m e] eqn:HV; try discriminate.
  - injection Hq as <-. destruct Hcase as [->|(_ & Hne & ->)]; [lia|].
    destruct (Hnz Hne) as [HsN|HsN].
    + simpl in Hsign. destruct Hsign as (sx & sy & Hx & Hy & ->).
      rewrite HsN in Hx. rewrite HD in Hy. injection Hx as <-. injection Hy as <-.
      replace (xorb sg (negb sg)) with true in HV by (destruct sg; reflexivity).
      rewrite (get_sign_neg_zero _ HV). lia.
    + rewrite div_spec, HsN in HV. discriminate.
  - destruct ((np.intp_min <=? np.ceil_finite sv m e)%Z
              && (np.ceil_finite sv m e <=? np.intp_max_as_double)%Z); [|discriminate].
    injection Hq as <-.
    assert (Hlen : len = np.to_intp (np.ceil_finite sv m e)).
    { destruct Hcase as [->|(Hz & _)]; [reflexivity|].
      apply is_zero_spec in Hz as [s' Hz]. rewrite HV in Hz. discriminate. }
    subst len. simpl in Hsign. destruct Hsign as (sx & sy & Hx & Hy & ->).
    rewrite HD in Hy. injection Hy as <-.
    assert (sx = sg) as ->.
    { rewrite div_spec in HV.
      destruct (Prim2SF (tf - t0)) as [s|s| |s m' e']; simpl in *;
        try discriminate; try congruence.
      destruct (Prim2SF dt) as [s2|s2| |s2 m2 e2]; simpl in *; discriminate. }
    replace (xorb sg (negb sg)) with true by (destruct sg; reflexivity).
    apply to_intp_nonpos, ceil_finite_negative.
Qed.

Lemma arange_opposed t0 tf dt ts :
  opposed t0 tf dt → np.arange t0 tf dt = Ok ts → ts = [].
Proof.
  intros Hopp H. apply arange_Ok in H as (len & Hl & ->).
  apply (calc_length_opposed _ _ _ _ Hopp) in Hl.
  replace (Z.to_nat len) with 0%nat by lia. reflexivity.
Qed.

(** ** Runs that return no trajectory *)

Lemma runge_kutta4_no_grid {P : Type} (f : field P) state0 t0 tf dt params :
  (∀ ts, np.arange t0 tf dt = Ok ts → ts = []) →
  runge_kutta4 f state0 (t0, tf) dt params
  = Raise (match np.arange t0 tf dt with Ok _ => IndexError | Raise e => e end).
Proof.
  intros Hts. unfold runge_kutta4.
  destruct (np.arange t0 tf dt) as [ts|e]; [|reflexivity].
  rewrite (Hts ts eq_refl). reflexivity.
Qed.

(** C6 (as amended). For [t0 >= tf] and [dt > 0] the call fails: the time
    grid is empty and storing the initial state into the empty buffer
    raises [IndexError] (when [np.arange] itself raises, for a quotient
    that is NaN or whose ceiling is out of range, that exception comes out
    instead).  The outcome is the same for every field, initial state and
    parameters: the field is never evaluated. *)
Theorem empty_span_raises {P : Type} (f : field P) state0 t0 tf dt params :
  (tf <=? t0) = true → (0 <? dt) = true →
  (∀ ts, np.arange t0 tf dt = Ok ts → ts = [])
  ∧ runge_kutta4 f state0 (t0, tf) dt params
    = Raise (match np.arange t0 tf dt with Ok _ => IndexError | Raise e => e end).
Proof.
  intros Hle Hdt.
  assert (Hts : ∀ ts, np.arange t0 tf dt = Ok ts → ts = []).
  { intros ts. apply arange_opposed. left. auto. }
  split; [exact Hts | apply runge_kutta4_no_grid; exact Hts].
Qed.

Lemma empty_span_raises_witness :
  runge_kutta4 dc_motor_ode motor_state0 (2.0, 0.0) 0.01 motor_params = Raise IndexError.
Proof.
  exact (proj2 (empty_span_raises dc_motor_ode motor_state0 2.0 0.0 0.01 motor_params
                  eq_refl eq_refl)).
Defined.

(** C6, counterexample. With [t0 = tf = 0] and [dt = 0.01] the call does not
    return an empty trajectory; it raises [IndexError]. *)
Lemma empty_span_counterexample :
  (0.0 <=? 0.0) = true ∧ (0 <? 0.01) = true
  ∧ runge_kutta4 dc_motor_ode motor_state0 (0.0, 0.0) 0.01 motor_params
    = Raise IndexError
  ∧ runge_kutta4 dc_motor_ode motor_state0 (0.0, 0.0) 0.01 motor_params
    ≠ Ok ([], []).
Proof.
  split; [reflexivity|]. split; [reflexivity|].
  split; [vm_compute; reflexivity | vm_compute; discriminate].
Qed.

(** ** The store model refines the value model *)

Lemma bindM_Ok {A B : Type} (m : Heap.M A) (k : A → Heap.M B) h a h' :
  m h = (Ok a, h') → (m ≫= k) h = k a h'.
Proof. intros H. unfold mbind, Heap.M_bind. rewrite H. reflexivity. Qed.

Lemma bindM_Raise {A B : Type} (m : Heap.M A) (k : A → Heap.M B) h e h' :
  m h = (Raise e, h') → (m ≫= k) h = (Raise e, h').
Proof. intros H. unfold mbind, Heap.M_bind. rewrite H. reflexivity. Qed.

Lemma of_function_pure g : pure_field (Heap.of_function g) g.
Proof.
  intros h r t p s ps Hs Hp. unfold Heap.of_function. rewrite Hs, Hp.
  destruct (g s t ps) as [y|e]; eexists; (split; [reflexivity|]).
  - apply prefix_app_r. reflexivity.
  - reflexivity.
Qed.

Lemma run_inv_grow h hc hc' lt ls lp ts st ps :
  run_inv h hc lt ls lp ts st ps → hc `prefix_of` hc' →
  run_inv h hc' lt ls lp ts st ps.
Proof.
  intros [] Hp. constructor; try assumption.
  - etransitivity; eauto.
  - eapply prefix_lookup_Some; eauto.
  - eapply prefix_lookup_Some; eauto.
  - eapply prefix_lookup_Some; eauto.
Qed.

Lemma prefix_insert_beyond {A : Type} (h hc : list A) i x :
  h `prefix_of` hc → (length h ≤ i)%nat → h `prefix_of` <[i := x]> hc.
Proof.
  intros [k ->] Hi. exists (<[(i - length h)%nat := x]> k).
  rewrite insert_app_r_alt by exact Hi. reflexivity.
Qed.

Lemma run_inv_write h hc lt ls lp ts st st' ps :
  run_inv h hc lt ls lp ts st ps →
  run_inv h (<[ls := Heap.Mat st']> hc) lt ls lp ts st' ps.
Proof.
  intros []. constructor; try assumption.
  - apply prefix_insert_beyond; assumption.
  - rewrite list_lookup_insert_ne by lia. assumption.
  - apply list_lookup_insert_eq. eapply lookup_lt_Some; eauto.
  - rewrite list_lookup_insert_ne by lia. assumption.
Qed.

Lemma read_row_inv h hc lt ls lp ts st ps i :
  run_inv h hc lt ls lp ts st ps → Heap.read_row ls i hc = (np.getitem st i, hc).
Proof. intros []. unfold Heap.read_row. rewrite inv_s0. reflexivity. Qed.

Lemma read_item_inv h hc lt ls lp ts st ps i :
  run_inv h hc lt ls lp ts st ps → Heap.read_item lt i hc = (np.getitem ts i, hc).
Proof. intros []. unfold Heap.read_item. rewrite inv_t0. reflexivity. Qed.

Lemma call_inv f g h hc lt ls lp ts st ps r s t :
  pure_field f g → run_inv h hc lt ls lp ts st ps → Heap.deref hc r = Some s →
  ∃ hc', f r t lp hc = (g s t ps, hc') ∧ run_inv h hc' lt ls lp ts st ps.
Proof.
  intros Hf Hinv Hs.
  destruct (Hf hc r t lp s ps Hs (inv_p _ _ _ _ _ _ _ _ Hinv)) as (hc' & Hc & Hp).
  exists hc'. split; [exact Hc | eapply run_inv_grow; eauto].
Qed.

Lemma alloc_inv h hc lt ls lp ts st ps a :
  run_inv h hc lt ls lp ts st ps →
  run_inv h (hc ++ [Heap.Seq a]) lt ls lp ts st ps
  ∧ Heap.deref (hc ++ [Heap.Seq a]) (Heap.Whole (length hc)) = Some a.
Proof.
  intros Hinv. split.
  - eapply run_inv_grow; [exact Hinv|]. apply prefix_app_r. reflexivity.
  - simpl. rewrite lookup_app_r by lia. rewrite Nat.sub_diag. reflexivity.
Qed.

Lemma deref_row h hc lt ls lp ts st ps i s :
  run_inv h hc lt ls lp ts st ps → np.getitem st i = Ok s →
  Heap.deref hc (Heap.RowOf ls i) = Some s.
Proof.
  intros Hinv Hs. simpl. rewrite (inv_s _ _ _ _ _ _ _ _ Hinv).
  apply getitem_Ok. exact Hs.
Qed.

Lemma ret_bind {A B : Type} (a : A) (k : A → result B) : Ok a ≫= k = k a.
Proof. reflexivity. Qed.

Lemma raise_bind {A B : Type} (e : exn) (k : A → result B) : Raise e ≫= k = Raise e.
Proof. reflexivity. Qed.

Lemma lift_run {A : Type} (r : result A) h : Heap.lift r h = (r, h).
Proof. reflexivity. Qed.

Lemma alloc_run o h : Heap.alloc o h = (Ok (length h), h ++ [o]).
Proof. reflexivity. Qed.

(** Advances the store side and the value side of a refinement goal past
    a computation whose effect on the store is the equation [H]. *)
Ltac heap_ok H :=
  rewrite (bindM_Ok _ _ _ _ _ H); rewrite ?ret_bind.
Ltac heap_raise H Hinv :=
  rewrite (bindM_Raise _ _ _ _ _ H); rewrite ?raise_bind;
  eexists; split; [reflexivity | exact Hinv].

Lemma rk4_body_refines f g h hc lt ls lp ts st ps dt i :
  pure_field f g → run_inv h hc lt ls lp ts st ps →
  ∃ hc',
    Heap.rk4_body f lp dt lt ls i hc
    = (match rk4_body g ps dt ts i st with Ok _ => Ok tt | Raise e => Raise e end, hc')
    ∧ run_inv h hc' lt ls lp ts
        (match rk4_body g ps dt ts i st with Ok st' => st' | Raise _ => st end) ps.
Proof.
  intros Hf Hinv. unfold Heap.rk4_body, rk4_body, rk4_increment.
  pose proof (read_row_inv _ _ _ _ _ _ _ _ i Hinv) as Hr.
  destruct (np.getitem st i) as [s|e] eqn:Hs; [heap_ok Hr | heap_raise Hr Hinv].
  pose proof (read_item_inv _ _ _ _ _ _ _ _ i Hinv) as Hti.
  destruct (np.getitem ts i) as [ti|e] eqn:Eti; [heap_ok Hti | heap_raise Hti Hinv].
  (* k1 *)
  destruct (call_inv f g _ _ _ _ _ _ _ _ _ s ti Hf Hinv
              (deref_row _ _ _ _ _ _ _ _ _ _ Hinv Hs)) as (h1 & Hc1 & Hinv1).
  destruct (g s ti ps) as [y1|e]; [heap_ok Hc1 | heap_raise Hc1 Hinv1].
  pose proof (read_row_inv _ _ _ _ _ _ _ _ i Hinv1) as Hr1. rewrite Hs in Hr1.
  heap_ok Hr1.
  (* k2 *)
  pose proof (lift_run (np.add s (np.divs (np.muls y1 dt) 2)) h1) as Hl2.
  destruct (np.add s (np.divs (np.muls y1 dt) 2)) as [a2|e];
    [heap_ok Hl2 | heap_raise Hl2 Hinv1].
  heap_ok (alloc_run (Heap.Seq a2) h1).
  destruct (alloc_inv _ _ _ _ _ _ _ _ a2 Hinv1) as (Hinv1' & Hd2).
  destruct (call_inv f g _ _ _ _ _ _ _ _ _ a2 (ti + dt / 2) Hf Hinv1' Hd2)
    as (h2 & Hc2 & Hinv2).
  destruct (g a2 (ti + dt / 2) ps) as [y2|e]; [heap_ok Hc2 | heap_raise Hc2 Hinv2].
  pose proof (read_row_inv _ _ _ _ _ _ _ _ i Hinv2) as Hr2. rewrite Hs in Hr2.
  heap_ok Hr2.
  (* k3 *)
  pose proof (lift_run (np.add s (np.divs (np.muls y2 dt) 2)) h2) as Hl3.
  destruct (np.add s (np.divs (np.muls y2 dt) 2)) as [a3|e];
    [heap_ok Hl3 | heap_raise Hl3 Hinv2].
  heap_ok (alloc_run (Heap.Seq a3) h2).
  destruct (alloc_inv _ _ _ _ _ _ _ _ a3 Hinv2) as (Hinv2' & Hd3).
  destruct (call_inv f g _ _ _ _ _ _ _ _ _ a3 (ti + dt / 2) Hf Hinv2' Hd3)
    as (h3 & Hc3 & Hinv3).
  destruct (g a3 (ti + dt / 2) ps) as [y3|e]; [heap_ok Hc3 | heap_raise Hc3 Hinv3].
  pose proof (read_row_inv _ _ _ _ _ _ _ _ i Hinv3) as Hr3. rewrite Hs in Hr3.
  heap_ok Hr3.
  (* k4 *)
  pose proof (lift_run (np.add s (np.muls y3 dt)) h3) as Hl4.
  destruct (np.add s (np.muls y3 dt)) as [a4|e];
    [heap_ok Hl4 | heap_raise Hl4 Hinv3].
  heap_ok (alloc_run (Heap.Seq a4) h3).
  destruct (alloc_inv _ _ _ _ _ _ _ _ a4 Hinv3) as (Hinv3' & Hd4).
  destruct (call_inv f g _ _ _ _ _ _ _ _ _ a4 (ti + dt) Hf Hinv3' Hd4)
    as (h4 & Hc4 & Hinv4).
  destruct (g a4 (ti + dt) ps) as [y4|e]; [heap_ok Hc4 | heap_raise Hc4 Hinv4].
  pose proof (read_row_inv _ _ _ _ _ _ _ _ i Hinv4) as Hr4. rewrite Hs in Hr4.
  heap_ok Hr4.
  (* the weighted sum *)
  pose proof (lift_run (np.add (np.muls y1 dt) (np.smul 2 (np.muls y2 dt))) h4) as Hu1.
  destruct (np.add (np.muls y1 dt) (np.smul 2 (np.muls y2 dt))) as [u1|e];
    [heap_ok Hu1 | heap_raise Hu1 Hinv4].
  pose proof (lift_run (np.add u1 (np.smul 2 (np.muls y3 dt))) h4) as Hu2.
  destruct (np.add u1 (np.smul 2 (np.muls y3 dt))) as [u2|e];
    [heap_ok Hu2 | heap_raise Hu2 Hinv4].
  pose proof (lift_run (np.add u2 (np.muls y4 dt)) h4) as Hu3.
  destruct (np.add u2 (np.muls y4 dt)) as [u3|e];
    [heap_ok Hu3 | heap_raise Hu3 Hinv4].
  pose proof (lift_run (np.add s (np.divs u3 6)) h4) as Hv.
  destruct (np.add s (np.divs u3 6)) as [v|e];
    [heap_ok Hv | heap_raise Hv Hinv4].
  (* the assignment *)
  unfold Heap.write_row. rewrite (inv_s _ _ _ _ _ _ _ _ Hinv4).
  destruct (np.setrow st (i + 1) v) as [st'|e].
  - eexists. split; [reflexivity|]. eapply run_inv_write. exact Hinv4.
  - eexists. split; [reflexivity | exact Hinv4].
Qed.

Lemma for_range_refines f g h lt ls lp ts ps dt k :
  pure_field f g →
  ∀ i0 hc st,
    run_inv h hc lt ls lp ts st ps →
    ∃ hc',
      Heap.for_range (Heap.rk4_body f lp dt lt ls) (seq i0 k) hc
      = (match for_each (rk4_body g ps dt ts) (seq i0 k) st with
         | Ok _ => Ok tt
         | Raise e => Raise e
         end, hc')
      ∧ h `prefix_of` hc'
      ∧ ∀ st', for_each (rk4_body g ps dt ts) (seq i0 k) st = Ok st' →
               run_inv h hc' lt ls lp ts st' ps.
Proof.
  intros Hf. induction k as [|k IH]; intros i0 hc st Hinv; cbn [seq for_each Heap.for_range].
  - exists hc. split; [reflexivity|]. split; [exact (inv_prefix _ _ _ _ _ _ _ _ Hinv)|].
    intros st' E. injection E as <-. exact Hinv.
  - destruct (rk4_body_refines f g h hc lt ls lp ts st ps dt i0 Hf Hinv)
      as (hc1 & Hb & Hinv1).
    destruct (rk4_body g ps dt ts i0 st) as [st1|e].
    + rewrite (bindM_Ok _ _ _ _ _ Hb), ret_bind. apply IH. exact Hinv1.
    + rewrite (bindM_Raise _ _ _ _ _ Hb), raise_bind.
      exists hc1. split; [reflexivity|].
      split; [exact (inv_prefix _ _ _ _ _ _ _ _ Hinv1) | discriminate].
Qed.

(** The integrator over the store computes what the integrator over values
    computes: the same exception, or the same trajectory, stored in two
    objects allocated by the run; and the store it leaves extends the
    caller's store. *)
Theorem heap_refines f g h state0 params s0 ps t0 tf dt :
  pure_field f g →
  h !! state0 = Some (Heap.Seq s0) → h !! params = Some (Heap.Seq ps) →
  ∃ h',
    Heap.runge_kutta4 f state0 (t0, tf) dt params h
    = (match runge_kutta4 g s0 (t0, tf) dt ps with
       | Ok _ => Ok (length h, S (length h))
       | Raise e => Raise e
       end, h')
    ∧ h `prefix_of` h'
    ∧ ∀ ts st, runge_kutta4 g s0 (t0, tf) dt ps = Ok (ts, st) →
        h' !! length h = Some (Heap.Seq ts)
        ∧ h' !! S (length h) = Some (Heap.Mat st).
Proof.
  intros Hf H0 Hp. unfold Heap.runge_kutta4, runge_kutta4.
  pose proof (lift_run (np.arange t0 tf dt) h) as Ht.
  destruct (np.arange t0 tf dt) as [ts|e].
  2: { rewrite (bindM_Raise _ _ _ _ _ Ht), raise_bind. exists h.
       split; [reflexivity|]. split; [reflexivity | discriminate]. }
  rewrite (bindM_Ok _ _ _ _ _ Ht), ret_bind.
  rewrite (bindM_Ok _ _ _ _ _ (alloc_run (Heap.Seq ts) h)).
  set (h1 := h ++ [Heap.Seq ts]).
  assert (H01 : h1 !! state0 = Some (Heap.Seq s0)).
  { unfold h1. apply lookup_app_l_Some. exact H0. }
  assert (Hread : ∀ hc, hc !! state0 = Some (Heap.Seq s0) →
                        Heap.read_seq state0 hc = (Ok s0, hc)).
  { intros hc E. unfold Heap.read_seq. rewrite E. reflexivity. }
  rewrite (bindM_Ok _ _ _ _ _ (Hread h1 H01)).
  rewrite (bindM_Ok _ _ _ _ _ (alloc_run _ h1)).
  set (h2 := h1 ++ [Heap.Mat (np.zeros (length ts) (length s0))]).
  assert (Hlen1 : length h1 = S (length h)).
  { unfold h1. rewrite length_app. simpl. lia. }
  assert (H02 : h2 !! state0 = Some (Heap.Seq s0)).
  { unfold h2. apply lookup_app_l_Some. exact H01. }
  rewrite (bindM_Ok _ _ _ _ _ (Hread h2 H02)).
  assert (Hinv2 : run_inv h h2 (length h) (length h1) params ts
                    (np.zeros (length ts) (length s0)) ps).
  { constructor.
    - unfold h2, h1. rewrite <- app_assoc. apply prefix_app_r. reflexivity.
    - lia.
    - lia.
    - lia.
    - unfold h2, h1. rewrite <- app_assoc. rewrite lookup_app_r by lia.
      rewrite Nat.sub_diag. reflexivity.
    - unfold h2. rewrite lookup_app_r by lia. rewrite Nat.sub_diag. reflexivity.
    - unfold h2, h1. rewrite <- app_assoc. apply lookup_app_l_Some. exact Hp.
    - eapply lookup_lt_Some; eauto. }
  assert (Hw : Heap.write_row (length h1) 0 s0 h2
               = (match np.setrow (np.zeros (length ts) (length s0)) 0 s0 with
                  | Ok _ => Ok tt
                  | Raise e => Raise e
                  end,
                  match np.setrow (np.zeros (length ts) (length s0)) 0 s0 with
                  | Ok st => <[length h1 := Heap.Mat st]> h2
                  | Raise _ => h2
                  end)).
  { unfold Heap.write_row. rewrite (inv_s _ _ _ _ _ _ _ _ Hinv2).
    destruct (np.setrow (np.zeros (length ts) (length s0)) 0 s0); reflexivity. }
  destruct (np.setrow (np.zeros (length ts) (length s0)) 0 s0) as [st0|e] eqn:Hset.
  2: { rewrite (bindM_Raise _ _ _ _ _ Hw), raise_bind. exists h2.
       split; [reflexivity|].
       split; [exact (inv_prefix _ _ _ _ _ _ _ _ Hinv2) | discriminate]. }
  rewrite (bindM_Ok _ _ _ _ _ Hw), ret_bind.
  pose proof (run_inv_write _ _ _ _ _ _ _ st0 _ Hinv2) as Hinv3.
  destruct (for_range_refines f g h (length h) (length h1) params ts ps dt
              (length ts - 1) Hf 0%nat _ st0 Hinv3) as (h' & Hloop & Hpre & Hfin).
  destruct (for_each (rk4_body g ps dt ts) (seq 0 (length ts - 1)) st0) as [st|e].
  - rewrite (bindM_Ok _ _ _ _ _ Hloop), ret_bind. exists h'.
    split; [rewrite Hlen1; reflexivity|]. split; [exact Hpre|].
    intros ts' st' E. injection E as <- <-.
    specialize (Hfin st eq_refl). rewrite <- Hlen1.
    split; [exact (inv_t _ _ _ _ _ _ _ _ Hfin) | exact (inv_s _ _ _ _ _ _ _ _ Hfin)].
  - rewrite (bindM_Raise _ _ _ _ _ Hloop), raise_bind. exists h'.
    split; [reflexivity|]. split; [exact Hpre | discriminate].
Qed.

Lemma outcome_refines f g h state0 params s0 ps t0 tf dt :
  pure_field f g →
  h !! state0 = Some (Heap.Seq s0) → h !! params = Some (Heap.Seq ps) →
  Heap.outcome (Heap.runge_kutta4 f state0 (t0, tf) dt params h)
  = runge_kutta4 g s0 (t0, tf) dt ps.
Proof.
  intros Hf H0 Hp.
  destruct (heap_refines f g h state0 params s0 ps t0 tf dt Hf H0 Hp)
    as (h' & Hrun & _ & Hres).
  rewrite Hrun. destruct (runge_kutta4 g s0 (t0, tf) dt ps) as [[ts st]|e]; [|reflexivity].
  destruct (Hres ts st eq_refl) as [Ht Hs]. simpl. rewrite Ht, Hs. reflexivity.
Qed.

(** C9. For a pure field, what a call returns is a function of the values of
    its arguments: two calls whose initial states and parameters have the
    same contents, with the same span and step, end with the same exception
    or return trajectories with identical times and identical states, bit
    for bit, whatever else the two stores contain and wherever the
    arguments live in them. *)
Theorem runge_kutta4_deterministic f g h1 h2 state0 state0' params params'
    s0 ps t0 tf dt :
  pure_field f g →
  h1 !! state0 = Some (Heap.Seq s0) → h1 !! params = Some (Heap.Seq ps) →
  h2 !! state0' = Some (Heap.Seq s0) → h2 !! params' = Some (Heap.Seq ps) →
  Heap.outcome (Heap.runge_kutta4 f state0 (t0, tf) dt params h1)
  = Heap.outcome (Heap.runge_kutta4 f state0' (t0, tf) dt params' h2).
Proof.
  intros Hf H1 P1 H2 P2.
  rewrite (outcome_refines f g h1 state0 params s0 ps t0 tf dt Hf H1 P1).
  rewrite (outcome_refines f g h2 state0' params' s0 ps t0 tf dt Hf H2 P2).
  reflexivity.
Qed.

(** Two calls in a row with the same arguments: the second runs in the store
    the first one left. *)
Lemma runge_kutta4_deterministic_witness :
  let f := Heap.of_function dc_motor_ode in
  let first := Heap.runge_kutta4 f 0 (0.0, 0.05) 0.01 1 main_heap in
  let second := Heap.runge_kutta4 f 0 (0.0, 0.05) 0.01 1 (snd first) in
  Heap.outcome first = Heap.outcome second.
Proof.
  cbv zeta.
  apply (runge_kutta4_deterministic (Heap.of_function dc_motor_ode) dc_motor_ode
           main_heap _ 0 0 1 1 motor_state0 motor_params 0.0 0.05 0.01).
  - apply of_function_pure.
  - reflexivity.
  - reflexivity.
  - vm_compute. reflexivity.
  - vm_compute. reflexivity.
Defined.

(** Without purity the conclusion fails: a field that updates the parameter
    object gives the second of two identical calls another trajectory. *)
Example counting_field_not_deterministic :
  let h := [Heap.Seq [0]; Heap.Seq [1]] in
  let first := Heap.runge_kutta4 Heap.counting_field 0 (0, 0.2) 0.1 1 h in
  let second := Heap.runge_kutta4 Heap.counting_field 0 (0, 0.2) 0.1 1 (snd first) in
  Heap.outcome first = Ok ([0; 0.1], [[0]; [0.25]])
  ∧ Heap.outcome second = Ok ([0; 0.1], [[0]; [0.65]])
  ∧ snd first !! 1%nat = Some (Heap.Seq [5]).
Proof. cbv zeta. repeat split; vm_compute; reflexivity. Qed.

(** C10. For a pure field, a call leaves every object of the caller's store
    as it was, the initial state and the parameters among them; the arrays it
    returns are objects the call allocated, so the state buffer is not the
    caller's initial state but holds a copy of it in row 0, and overwriting
    the returned buffer afterwards leaves the initial state unchanged. *)
Theorem runge_kutta4_frame f g h state0 params s0 ps t0 tf dt r h' :
  pure_field f g →
  h !! state0 = Some (Heap.Seq s0) → h !! params = Some (Heap.Seq ps) →
  Heap.runge_kutta4 f state0 (t0, tf) dt params h = (r, h') →
  h' !! state0 = Some (Heap.Seq s0)
  ∧ h' !! params = Some (Heap.Seq ps)
  ∧ (∀ l o, h !! l = Some o → h' !! l = Some o)
  ∧ ∀ t state, r = Ok (t, state) →
      (length h ≤ t)%nat ∧ (length h ≤ state)%nat ∧ state ≠ state0
      ∧ (∃ st, h' !! state = Some (Heap.Mat st) ∧ st !! 0%nat = Some s0)
      ∧ ∀ o, <[state := o]> h' !! state0 = Some (Heap.Seq s0).
Proof.
  intros Hf H0 Hp Hrun.
  destruct (heap_refines f g h state0 params s0 ps t0 tf dt Hf H0 Hp)
    as (h'' & Hrun' & Hpre & Hres).
  rewrite Hrun in Hrun'. apply pair_equal_spec in Hrun' as [Hr <-].
  assert (Hframe : ∀ l o, h !! l = Some o → h' !! l = Some o).
  { intros l o Hl. eapply prefix_lookup_Some; eauto. }
  split; [apply Hframe; exact H0|]. split; [apply Hframe; exact Hp|].
  split; [exact Hframe|].
  intros t state E. subst r. revert E.
  destruct (runge_kutta4 g s0 (t0, tf) dt ps) as [[ts st]|e] eqn:Hpure;
    intros E; [|discriminate].
  injection E as <- <-.
  pose proof (lookup_lt_Some _ _ _ H0) as Hlt.
  destruct (Hres ts st eq_refl) as [_ Hs].
  split; [lia|]. split; [lia|]. split; [lia|].
  split.
  - exists st. split; [exact Hs|]. apply runge_kutta4_spec in Hpure. tauto.
  - intros o. rewrite list_lookup_insert_ne by lia. apply Hframe. exact H0.
Qed.

Lemma runge_kutta4_frame_witness :
  let run := Heap.runge_kutta4 (Heap.of_function dc_motor_ode) 0 (0.0, 0.05) 0.01 1
               main_heap in
  snd run !! 0%nat = Some (Heap.Seq motor_state0)
  ∧ snd run !! 1%nat = Some (Heap.Seq motor_params)
  ∧ fst run = Ok (2%nat, 3%nat).
Proof.
  cbv zeta.
  destruct (Heap.runge_kutta4 (Heap.of_function dc_motor_ode) 0 (0.0, 0.05) 0.01 1
              main_heap) as [r h'] eqn:Hrun.
  destruct (runge_kutta4_frame (Heap.of_function dc_motor_ode) dc_motor_ode main_heap
              0 1 motor_state0 motor_params 0.0 0.05 0.01 r h'
              (of_function_pure dc_motor_ode) eq_refl eq_refl Hrun)
    as (H0 & H1 & _).
  split; [exact H0|]. split; [exact H1|].
  vm_compute in Hrun. injection Hrun as <- _. reflexivity.
Defined.

(** * Further properties of the model and the integrator *)

(** ** Further properties of the field and of the integrator *)

(** X1. The exceptions of [dc_motor_ode].  A state that has not two
    components or parameters that are not seven raise [ValueError], from
    the unpacking, whatever the numbers.  With two and seven, a state of
    [float64] numbers, as the integrator passes it, always gives a result of
    two components, and a state of Python floats gives the same result
    unless [J] or [L] is zero, when Python's division raises
    [ZeroDivisionError]. *)
Theorem dc_motor_ode_arity :
  (∀ state t params,
     length state ≠ 2%nat ∨ length params ≠ 7%nat →
     dc_motor_ode state t params = Raise ValueError
     ∧ Py.dc_motor_ode state t params = Raise ValueError)
  ∧ (∀ ω i t J b Kt Ke R L u,
       ∃ y, dc_motor_ode [ω; i] t [J; b; Kt; Ke; R; L; u] = Ok y
            ∧ length y = 2%nat
            ∧ Py.dc_motor_ode [ω; i] t [J; b; Kt; Ke; R; L; u]
              = if is_zero J || is_zero L then Raise ZeroDivisionError else Ok y).
Proof.
  split.
  - intros state t params H.
    destruct state as [|ω [|i [|x state]]]; simpl; auto.
    destruct params as [|J [|b [|Kt [|Ke [|R [|L [|u [|x params]]]]]]]]; simpl; auto.
    simpl in H. lia.
  - intros ω i t J b Kt Ke R L u. eexists. split; [reflexivity|].
    split; [reflexivity|]. unfold Py.dc_motor_ode, Py.truediv.
    destruct (is_zero J); [reflexivity|]. rewrite ret_bind.
    destruct (is_zero L); reflexivity.
Qed.

Lemma dc_motor_ode_arity_witness :
  dc_motor_ode [0.5; 2.0; 1.0] 0 motor_params = Raise ValueError
  ∧ Py.dc_motor_ode [0.5; 2.0; 1.0] 0 motor_params = Raise ValueError.
Proof.
  apply (proj1 dc_motor_ode_arity [0.5; 2.0; 1.0] 0 motor_params).
  left. simpl. lia.
Defined.

(** With [J = 0] the two kinds of call differ: Python floats raise, a
    [float64] state gives an infinite derivative. *)
Example dc_motor_ode_zero_inertia :
  Py.dc_motor_ode [0.5; 2.0] 0 [0; 0.1; 0.1; 0.1; 1.0; 0.1; 1.0]
  = Raise ZeroDivisionError
  ∧ dc_motor_ode [0.5; 2.0] 0 [0; 0.1; 0.1; 0.1; 1.0; 0.1; 1.0]
    = Ok [infinity; -10.5].
Proof. split; vm_compute; reflexivity. Qed.


Lemma dc_motor_ode_shape params :
  length params = 7%nat → shape_respecting dc_motor_ode params 2.
Proof.
  intros Hp s t Hs.
  destruct s as [|ω [|i [|x s]]]; try discriminate.
  destruct params as [|J [|b [|Kt [|Ke [|R [|L [|u [|x params]]]]]]]]; try discriminate.
  eexists. split; reflexivity.
Qed.

(** ** Runs that cannot fail *)

Lemma add_same_length a b :
  length a = length b →
  ∃ c, np.add a b = Ok c ∧ length c = length a.
Proof.
  intros E. exists (zip_with PrimFloat.add a b).
  split; [apply broadcast_same; exact E | rewrite length_zip_with; lia].
Qed.

Lemma rk4_increment_shape {P : Type} (f : field P) params dt s ti :
  shape_respecting f params (length s) →
  ∃ v, rk4_increment f params dt s ti = Ok v ∧ length v = length s.
Proof.
  intros Hf. unfold rk4_increment.
  destruct (Hf s ti eq_refl) as (y1 & -> & L1). rewrite ret_bind.
  destruct (add_same_length s (np.divs (np.muls y1 dt) 2)) as (a2 & -> & La2);
    [unfold np.divs, np.muls; rewrite !length_map; lia|]. rewrite ret_bind.
  destruct (Hf a2 (ti + dt / 2) La2) as (y2 & -> & L2). rewrite ret_bind.
  destruct (add_same_length s (np.divs (np.muls y2 dt) 2)) as (a3 & -> & La3);
    [unfold np.divs, np.muls; rewrite !length_map; lia|]. rewrite ret_bind.
  destruct (Hf a3 (ti + dt / 2) La3) as (y3 & -> & L3). rewrite ret_bind.
  destruct (add_same_length s (np.muls y3 dt)) as (a4 & -> & La4);
    [unfold np.muls; rewrite !length_map; lia|]. rewrite ret_bind.
  destruct (Hf a4 (ti + dt) La4) as (y4 & -> & L4). rewrite ret_bind.
  destruct (add_same_length (np.muls y1 dt) (np.smul 2 (np.muls y2 dt)))
    as (u1 & -> & Lu1);
    [unfold np.smul, np.muls; rewrite !length_map; lia|]. rewrite ret_bind.
  destruct (add_same_length u1 (np.smul 2 (np.muls y3 dt))) as (u2 & -> & Lu2);
    [unfold np.smul, np.muls in *; rewrite !length_map in *; lia|]. rewrite ret_bind.
  destruct (add_same_length u2 (np.muls y4 dt)) as (u3 & -> & Lu3);
    [unfold np.smul, np.muls in *; rewrite !length_map in *; lia|]. rewrite ret_bind.
  apply add_same_length.
  unfold np.divs, np.smul, np.muls in *. rewrite !length_map in *. lia.
Qed.

Lemma rk4_loop_shape {P : Type} (f : field P) params dt ts d k :
  shape_respecting f params d →
  ∀ i0 st,
    length st = length ts → (i0 + k < length ts)%nat → rect d st →
    ∃ st',
      for_each (rk4_body f params dt ts) (seq i0 k) st = Ok st'
      ∧ length st' = length st ∧ rect d st'.
Proof.
  intros Hf. induction k as [|k IH]; intros i0 st Hlen Hk Hrect.
  - exists st. auto.
  - cbn [seq for_each].
    destruct (lookup_lt_is_Some_2 st i0 ltac:(lia)) as [s Hs].
    destruct (lookup_lt_is_Some_2 ts i0 ltac:(lia)) as [ti Hti].
    destruct (lookup_lt_is_Some_2 st (i0 + 1) ltac:(lia)) as [old Hold].
    pose proof (rect_lookup _ _ _ _ Hrect Hs) as Ls.
    pose proof (rect_lookup _ _ _ _ Hrect Hold) as Lold.
    destruct (rk4_increment_shape f params dt s ti) as (v & Hv & Lv);
      [rewrite Ls; exact Hf|].
    assert (Hbody : rk4_body f params dt ts i0 st = Ok (<[(i0 + 1)%nat := v]> st)).
    { unfold rk4_body, np.getitem. rewrite Hs, Hti, !ret_bind, Hv, ret_bind.
      unfold np.setrow. rewrite Hold.
      replace (length old) with (length v) by lia. rewrite fit_row_same. reflexivity. }
    rewrite Hbody, ret_bind.
    destruct (IH (S i0) (<[(i0 + 1)%nat := v]> st)) as (st' & Hloop & Hlen' & Hrect').
    + rewrite length_insert. exact Hlen.
    + lia.
    + apply Forall_insert; [exact Hrect | lia].
    + exists st'. rewrite Hlen', length_insert in *. auto.
Qed.

(** With a field that honours the contract the only failures are those of
    the time grid. *)
Lemma runge_kutta4_total {P : Type} (f : field P) state0 t0 tf dt params ts :
  shape_respecting f params (length state0) →
  np.arange t0 tf dt = Ok ts → ts ≠ [] →
  ∃ states,
    runge_kutta4 f state0 (t0, tf) dt params = Ok (ts, states)
    ∧ length states = length ts
    ∧ Forall (λ s, length s = length state0) states.
Proof.
  intros Hf Ht Hne.
  assert (Hn : (1 ≤ length ts)%nat) by (destruct ts; [congruence | simpl; lia]).
  destruct (rk4_loop_shape f params dt ts (length state0) (length ts - 1) Hf 0%nat
              (<[0%nat := state0]> (np.zeros (length ts) (length state0))))
    as (states & Hloop & Hlen & Hrect).
  - unfold np.zeros. rewrite length_insert, length_replicate. reflexivity.
  - lia.
  - apply Forall_insert; [apply rect_zeros | reflexivity].
  - exists states. split; [apply runge_kutta4_Ok; auto|].
    split; [|exact Hrect].
    rewrite Hlen. unfold np.zeros. rewrite length_insert, length_replicate. reflexivity.
Qed.

(** X2. When the field returns, for every state of the dimension of the
    initial state, a derivative of that dimension, the integrator cannot
    fail once [np.arange] has produced a non-empty grid: it returns one
    state per sample time, each of the dimension of the initial state. *)
Theorem contract_field_returns {P : Type} (f : field P) state0 t0 tf dt params ts :
  shape_respecting f params (length state0) →
  np.arange t0 tf dt = Ok ts → ts ≠ [] →
  ∃ states,
    runge_kutta4 f state0 (t0, tf) dt params = Ok (ts, states)
    ∧ length states = length ts
    ∧ Forall (λ s, length s = length state0) states.
Proof. apply runge_kutta4_total. Qed.

Lemma contract_field_returns_witness :
  ∃ states,
    runge_kutta4 (const_field [1; 2]) [0; 5] (1, 0) (-0.5) tt = Ok ([1; 0.5], states)
    ∧ length states = 2%nat
    ∧ Forall (λ s, length s = 2%nat) states.
Proof.
  apply (contract_field_returns (const_field [1; 2]) [0; 5] 1 0 (-0.5) tt [1; 0.5]).
  - intros s t Hs. exists [1; 2]. split; reflexivity.
  - vm_compute. reflexivity.
  - discriminate.
Defined.

Lemma arange_item_first t0 tf dt ts :
  np.arange t0 tf dt = Ok ts → (1 ≤ length ts)%nat → ts !! 0%nat = Some t0.
Proof. intros Ht Hn. rewrite (arange_lookup _ _ _ _ 0%nat Ht) by lia. reflexivity. Qed.

(** A run of two samples or more starts by evaluating the field at the
    initial state and the initial time; when that evaluation raises, so
    does the run. *)
Lemma runge_kutta4_first_raise {P : Type} (f : field P) state0 t0 tf dt params ts e :
  np.arange t0 tf dt = Ok ts → (2 ≤ length ts)%nat →
  f state0 t0 params = Raise e →
  runge_kutta4 f state0 (t0, tf) dt params = Raise e.
Proof.
  intros Ht Hn Hf. unfold runge_kutta4. rewrite Ht, ret_bind.
  rewrite setrow_zeros by reflexivity.
  destruct (length ts) as [|[|n]] eqn:En; [lia | lia |].
  rewrite ret_bind. replace (S (S n) - 1)%nat with (S n) by lia. cbn [seq for_each].
  assert (Hbody : rk4_body f params dt ts 0
                    (<[0%nat := state0]> (np.zeros (S (S n)) (length state0)))
                  = Raise e).
  { unfold rk4_body, np.getitem.
    rewrite (arange_item_first _ _ _ _ Ht) by lia.
    unfold np.zeros. cbn [replicate]. cbn [insert list_insert lookup list_lookup].
    rewrite !ret_bind. unfold rk4_increment. rewrite Hf. reflexivity. }
  rewrite Hbody. reflexivity.
Qed.

(** X3. The integrator and the motor model together: with a two-component
    initial state and seven parameters, [runge_kutta4] applied to
    [dc_motor_ode] returns a trajectory for every non-empty time grid, with
    two components in every state, and no exception can occur on the way;
    with any other sizes and at least two samples it raises the
    [ValueError] of the first evaluation of the model. *)
Theorem motor_run_returns state0 t0 tf dt params ts :
  np.arange t0 tf dt = Ok ts →
  (length state0 = 2%nat → length params = 7%nat → ts ≠ [] →
   ∃ states,
     runge_kutta4 dc_motor_ode state0 (t0, tf) dt params = Ok (ts, states)
     ∧ length states = length ts
     ∧ Forall (λ s, length s = 2%nat) states)
  ∧ ((length state0 ≠ 2%nat ∨ length params ≠ 7%nat) → (2 ≤ length ts)%nat →
     runge_kutta4 dc_motor_ode state0 (t0, tf) dt params = Raise ValueError).
Proof.
  intros Ht. split.
  - intros H2 H7 Hne.
    destruct (runge_kutta4_total dc_motor_ode state0 t0 tf dt params ts)
      as (states & Hrun & Hlen & Hall); auto.
    + rewrite H2. apply dc_motor_ode_shape. exact H7.
    + exists states. rewrite H2 in Hall. auto.
  - intros Hbad Hn. apply (runge_kutta4_first_raise _ _ _ _ _ _ ts); auto.
    destruct state0 as [|ω [|i [|x state0]]]; try reflexivity.
    destruct params as [|J [|b [|Kt [|Ke [|R [|L [|u [|x params]]]]]]]]; try reflexivity.
    simpl in Hbad. lia.
Qed.

Lemma motor_run_returns_witness :
  (∃ states,
     runge_kutta4 dc_motor_ode motor_state0 (0.0, 0.05) 0.01 motor_params
     = Ok ([0; 0.01; 0.02; 0.03; 0.04], states)
     ∧ length states = 5%nat
     ∧ Forall (λ s, length s = 2%nat) states)
  ∧ runge_kutta4 dc_motor_ode [0.0] (0.0, 0.05) 0.01 motor_params = Raise ValueError.
Proof.
  assert (Ht : np.arange 0.0 0.05 0.01 = Ok [0; 0.01; 0.02; 0.03; 0.04])
    by (vm_compute; reflexivity).
  split.
  - apply (proj1 (motor_run_returns motor_state0 0.0 0.05 0.01 motor_params _ Ht));
      [reflexivity | reflexivity | discriminate].
  - apply (proj2 (motor_run_returns [0.0] 0.0 0.05 0.01 motor_params _ Ht));
      [left; simpl; lia | simpl; lia].
Defined.

(** X4. The integrator does not intercept what the field raises: in a run
    of two samples or more, an exception raised by the first evaluation of
    the field, at the initial state and the initial time, comes out of
    [runge_kutta4] unchanged. *)
Theorem field_exception_propagates {P : Type} (f : field P) state0 t0 tf dt params
    ts e :
  np.arange t0 tf dt = Ok ts → (2 ≤ length ts)%nat →
  f state0 t0 params = Raise e →
  runge_kutta4 f state0 (t0, tf) dt params = Raise e.
Proof. apply runge_kutta4_first_raise. Qed.

Lemma field_exception_propagates_witness :
  runge_kutta4 (λ _ _ (_ : unit), Raise ZeroDivisionError) [0; 5] (0, 0.3) 0.1 tt
  = Raise ZeroDivisionError.
Proof.
  apply (field_exception_propagates _ [0; 5] 0 0.3 0.1 tt [0; 0.1; 0.2]).
  - vm_compute. reflexivity.
  - simpl. lia.
  - reflexivity.
Defined.

(** X5. A grid of a single sample gives the trajectory that consists of the
    initial state at the initial time, whatever the field: no iteration
    runs and the field is not evaluated. *)
Theorem single_sample_run {P : Type} (f : field P) state0 t0 tf dt params ts :
  np.arange t0 tf dt = Ok ts → length ts = 1%nat →
  runge_kutta4 f state0 (t0, tf) dt params = Ok ([t0], [state0]).
Proof.
  intros Ht Hn.
  assert (ts = [t0]) as ->.
  { pose proof (arange_item_first _ _ _ _ Ht ltac:(lia)) as H0.
    destruct ts as [|x [|y ts]]; try discriminate. simpl in H0. congruence. }
  unfold runge_kutta4. rewrite Ht, ret_bind. rewrite setrow_zeros by reflexivity.
  simpl. reflexivity.
Qed.

Lemma single_sample_run_witness :
  runge_kutta4 (λ _ _ (_ : unit), Raise ZeroDivisionError) [0; 5] (0, 0.3) 1 tt
  = Ok ([0], [[0; 5]]).
Proof.
  apply (single_sample_run _ [0; 5] 0 0.3 1 tt [0]).
  - vm_compute. reflexivity.
  - reflexivity.
Defined.

(** ** A longer span only appends samples *)

Lemma take_of_lookups {A : Type} (l l' : list A) :
  (length l ≤ length l')%nat →
  (∀ i, (i < length l)%nat → l !! i = l' !! i) →
  l = take (length l) l'.
Proof.
  intros Hlen H. apply list_eq. intros i.
  destruct (decide (i < length l)%nat) as [Hi|Hi].
  - rewrite lookup_take_lt by exact Hi. apply H. exact Hi.
  - rewrite lookup_take_ge by lia. apply lookup_ge_None_2. lia.
Qed.

(** X6. Two runs that differ only in the end of the span agree on the
    samples they share: if both return and the first has no more samples
    than the second, its times and its states are the first times and
    states of the second.  Extending [tf] appends samples and changes none. *)
Theorem longer_span_extends {P : Type} (f : field P) state0 t0 tf tf' dt params
    ts states ts' states' :
  runge_kutta4 f state0 (t0, tf) dt params = Ok (ts, states) →
  runge_kutta4 f state0 (t0, tf') dt params = Ok (ts', states') →
  (length ts ≤ length ts')%nat →
  ts = take (length ts) ts' ∧ states = take (length states) states'.
Proof.
  intros H H' Hle.
  apply runge_kutta4_spec in H as (Ht & Hn & Hlen & _ & H0 & Hstep).
  apply runge_kutta4_spec in H' as (Ht' & Hn' & Hlen' & _ & H0' & Hstep').
  assert (Hts : ∀ i, (i < length ts)%nat → ts !! i = ts' !! i).
  { intros i Hi. rewrite (arange_lookup _ _ _ _ i Ht) by exact Hi.
    rewrite (arange_lookup _ _ _ _ i Ht') by lia. reflexivity. }
  split; [apply take_of_lookups; assumption|].
  apply take_of_lookups; [lia|]. rewrite Hlen.
  intros i. induction i as [|i IH]; intros Hi.
  - rewrite H0, H0'. reflexivity.
  - destruct (Hstep i ltac:(lia)) as (s & ti & v & row & Hs & Hti & Hv & Hf & Hr).
    destruct (Hstep' i ltac:(lia)) as (s' & ti' & v' & row' & Hs' & Hti' & Hv' & Hf' & Hr').
    replace (S i) with (i + 1)%nat by lia. rewrite Hr, Hr'.
    rewrite IH, Hs' in Hs by lia. injection Hs as <-.
    rewrite Hts, Hti' in Hti by lia. injection Hti as <-.
    congruence.
Qed.

Lemma longer_span_extends_witness :
  ∃ ts states ts' states',
    runge_kutta4 dc_motor_ode motor_state0 (0.0, 0.03) 0.01 motor_params
    = Ok (ts, states)
    ∧ runge_kutta4 dc_motor_ode motor_state0 (0.0, 0.05) 0.01 motor_params
      = Ok (ts', states')
    ∧ length ts = 3%nat ∧ length ts' = 5%nat
    ∧ ts = take (length ts) ts' ∧ states = take (length states) states'.
Proof.
  destruct (runge_kutta4 dc_motor_ode motor_state0 (0.0, 0.03) 0.01 motor_params)
    as [[ts states]|e] eqn:H; [|vm_compute in H; discriminate H].
  destruct (runge_kutta4 dc_motor_ode motor_state0 (0.0, 0.05) 0.01 motor_params)
    as [[ts' states']|e] eqn:H'; [|vm_compute in H'; discriminate H'].
  assert (Hn : length ts = 3%nat)
    by (vm_compute in H; injection H as <- _; reflexivity).
  assert (Hn' : length ts' = 5%nat)
    by (vm_compute in H'; injection H' as <- _; reflexivity).
  exists ts, states, ts', states'.
  split; [reflexivity|]. split; [reflexivity|]. split; [exact Hn|]. split; [exact Hn'|].
  apply (longer_span_extends dc_motor_ode motor_state0 0.0 0.03 0.05 0.01 motor_params
           ts states ts' states' H H').
  rewrite Hn, Hn'. lia.
Defined.

(** ** The store model and the value model *)

(** X7. Updating the state buffer in place computes what the integrator
    over values computes: for a pure field, the run over the store raises
    exactly the exception of the run over values, or returns the addresses
    of two distinct objects that hold exactly its times and its states. *)
Theorem store_run_matches_value_run f g h state0 params s0 ps t0 tf dt :
  pure_field f g →
  h !! state0 = Some (Heap.Seq s0) → h !! params = Some (Heap.Seq ps) →
  match runge_kutta4 g s0 (t0, tf) dt ps,
        Heap.runge_kutta4 f state0 (t0, tf) dt params h with
  | Ok (ts, st), (Ok (t, state), h') =>
      t ≠ state ∧ h' !! t = Some (Heap.Seq ts) ∧ h' !! state = Some (Heap.Mat st)
  | Raise e, (Raise e', _) => e' = e
  | _, _ => False
  end.
Proof.
  intros Hf H0 Hp.
  destruct (heap_refines f g h state0 params s0 ps t0 tf dt Hf H0 Hp)
    as (h' & Hrun & _ & Hres).
  rewrite Hrun. destruct (runge_kutta4 g s0 (t0, tf) dt ps) as [[ts st]|e]; [|reflexivity].
  destruct (Hres ts st eq_refl) as [Ht Hs]. split; [lia | auto].
Qed.

Lemma store_run_matches_value_run_witness :
  match runge_kutta4 dc_motor_ode motor_state0 (0.0, 0.05) 0.01 motor_params,
        Heap.runge_kutta4 (Heap.of_function dc_motor_ode) 0 (0.0, 0.05) 0.01 1 main_heap
  with
  | Ok (ts, st), (Ok (t, state), h') =>
      t ≠ state ∧ h' !! t = Some (Heap.Seq ts) ∧ h' !! state = Some (Heap.Mat st)
  | Raise e, (Raise e', _) => e' = e
  | _, _ => False
  end.
Proof.
  exact (store_run_matches_value_run (Heap.of_function dc_motor_ode) dc_motor_ode
           main_heap 0 1 motor_state0 motor_params 0.0 0.05 0.01
           (of_function_pure dc_motor_ode) eq_refl eq_refl).
Defined.

(** ** NaN in the span or in the step *)

Lemma is_nan_spec x : is_nan x = true → Prim2SF x = S754_nan.
Proof.
  unfold is_nan. rewrite FloatAxioms.eqb_spec. unfold SFeqb.
  destruct (Prim2SF x) as [s|s| |s m e]; simpl; try destruct s; simpl;
    try discriminate; try reflexivity.
  all: rewrite Z.compare_refl, Pos.compare_cont_refl; discriminate.
Qed.

Lemma safe_ceil_nan v : Prim2SF v = S754_nan → np.safe_ceil_to_intp v = Raise ValueError.
Proof. intros H. unfold np.safe_ceil_to_intp. rewrite H. reflexivity. Qed.

Lemma SFdiv_nan_l y : SF64div S754_nan y = S754_nan.
Proof. reflexivity. Qed.

Lemma SFdiv_nan_r x : SF64div x S754_nan = S754_nan.
Proof. destruct x; reflexivity. Qed.

Lemma SFsub_nan_l y : SF64sub S754_nan y = S754_nan.
Proof. reflexivity. Qed.

Lemma SFsub_nan_r x : SF64sub x S754_nan = S754_nan.
Proof. destruct x; reflexivity. Qed.

(** X8. A NaN never reaches the time grid: when the step is NaN, or the
    step is not zero and an end of the span is NaN, [np.arange] cannot
    compute a length and [runge_kutta4] raises [ValueError], for every
    field, initial state and parameters. *)
Theorem nan_input_raises {P : Type} (f : field P) state0 t0 tf dt params :
  is_nan dt = true
  ∨ (is_zero dt = false ∧ (is_nan t0 = true ∨ is_nan tf = true)) →
  runge_kutta4 f state0 (t0, tf) dt params = Raise ValueError.
Proof.
  intros H.
  assert (Hz : is_zero dt = false).
  { destruct H as [H|[H _]]; [|exact H]. apply is_nan_spec in H.
    unfold is_zero. rewrite FloatAxioms.eqb_spec, H. reflexivity. }
  assert (Hv : Prim2SF ((tf - t0) / dt) = S754_nan).
  { rewrite div_spec, sub_spec. destruct H as [H|[_ [H|H]]]; apply is_nan_spec in H;
      rewrite H.
    - apply SFdiv_nan_r.
    - rewrite SFsub_nan_r. apply SFdiv_nan_l.
    - rewrite SFsub_nan_l. apply SFdiv_nan_l. }
  unfold runge_kutta4, np.arange, np.calc_length.
  rewrite Hz, (safe_ceil_nan _ Hv). reflexivity.
Qed.

Lemma nan_input_raises_witness :
  runge_kutta4 dc_motor_ode motor_state0 (0.0, nan) 0.01 motor_params
  = Raise ValueError.
Proof.
  apply nan_input_raises. right. split; [reflexivity|]. right. reflexivity.
Defined.

(** ** A derivative of length 1 *)

Lemma zip_with_replicate_both {A B C : Type} (op : A → B → C) n x y :
  zip_with op (replicate n x) (replicate n y) = replicate n (op x y).
Proof. induction n as [|n IH]; simpl; [reflexivity | rewrite IH; reflexivity]. Qed.

Lemma zip_with_replicate_right {A B C : Type} (op : A → B → C) (s : list A) y :
  zip_with op s (replicate (length s) y) = map (λ a, op a y) s.
Proof. induction s as [|a s IH]; simpl; [reflexivity | rewrite IH; reflexivity]. Qed.

Lemma map_replicate {A B : Type} (g : A → B) n x :
  map g (replicate n x) = replicate n (g x).
Proof. induction n as [|n IH]; simpl; [reflexivity | rewrite IH; reflexivity]. Qed.

(** Adding a one-element array to [s] adds its element to every component,
    as adding the stretched array does. *)
Lemma add_singleton s x :
  np.add s [x] = Ok (map (λ a, a + x) s)
  ∧ np.add s (replicate (length s) x) = Ok (map (λ a, a + x) s).
Proof.
  unfold np.add. split.
  - unfold np.broadcast. simpl length. destruct (decide (length s = 1%nat)) as [E|E].
    + destruct s as [|a [|b s]]; try discriminate. reflexivity.
    + rewrite decide_True by reflexivity. reflexivity.
  - rewrite broadcast_same by (rewrite length_replicate; reflexivity).
    rewrite zip_with_replicate_right. reflexivity.
Qed.

Lemma add_singletons x y : np.add [x] [y] = Ok [x + y].
Proof. reflexivity. Qed.

Lemma add_replicates n x y :
  np.add (replicate n x) (replicate n y) = Ok (replicate n (x + y)).
Proof.
  unfold np.add. rewrite broadcast_same by (rewrite !length_replicate; reflexivity).
  rewrite zip_with_replicate_both. reflexivity.
Qed.

Lemma rk4_increment_stretched {P : Type} (f : field P) params dt s ti :
  (∀ s t, ∃ c, f s t params = Ok [c]) →
  rk4_increment (stretched f) params dt s ti = rk4_increment f params dt s ti.
Proof.
  intros Hf. unfold rk4_increment, stretched.
  destruct (Hf s ti) as (c1 & ->). rewrite !ret_bind. simpl hd. simpl np.muls.
  unfold np.muls, np.divs, np.smul. rewrite !map_replicate. simpl map.
  destruct (add_singleton s (c1 * dt / 2)) as [-> ->]. rewrite !ret_bind.
  rewrite length_map.
  destruct (Hf (map (λ a, a + c1 * dt / 2) s) (ti + dt / 2)) as (c2 & ->).
  rewrite !ret_bind. simpl hd. rewrite !map_replicate. simpl map.
  destruct (add_singleton s (c2 * dt / 2)) as [-> ->]. rewrite !ret_bind.
  rewrite length_map.
  destruct (Hf (map (λ a, a + c2 * dt / 2) s) (ti + dt / 2)) as (c3 & ->).
  rewrite !ret_bind. simpl hd. rewrite !map_replicate. simpl map.
  destruct (add_singleton s (c3 * dt)) as [-> ->]. rewrite !ret_bind.
  rewrite length_map.
  destruct (Hf (map (λ a, a + c3 * dt) s) (ti + dt)) as (c4 & ->).
  rewrite !ret_bind. simpl hd. rewrite !map_replicate. simpl map.
  rewrite !add_singletons, !add_replicates, !ret_bind.
  rewrite !add_singletons, !add_replicates, !ret_bind.
  rewrite !add_singletons, !add_replicates, !ret_bind.
  rewrite !map_replicate. simpl map.
  destruct (add_singleton s ((c1 * dt + 2 * (c2 * dt) + 2 * (c3 * dt) + c4 * dt) / 6))
    as [-> ->].
  reflexivity.
Qed.

Lemma for_each_ext {A S : Type} (body body' : A → S → result S) xs s :
  (∀ x s, body x s = body' x s) → for_each body xs s = for_each body' xs s.
Proof.
  intros H. revert s. induction xs as [|x xs IH]; intros s; simpl; [reflexivity|].
  rewrite H. destruct (body' x s); simpl; [apply IH | reflexivity].
Qed.

Lemma runge_kutta4_single_slope {P : Type} (f : field P) state0 t_span dt params :
  (∀ s t, ∃ c, f s t params = Ok [c]) →
  runge_kutta4 f state0 t_span dt params
  = runge_kutta4 (stretched f) state0 t_span dt params.
Proof.
  intros Hf. destruct t_span as [t0 tf]. unfold runge_kutta4.
  destruct (np.arange t0 tf dt) as [ts|e]; [|reflexivity]. rewrite !ret_bind.
  destruct (np.setrow (np.zeros (length ts) (length state0)) 0 state0) as [st|e];
    [|reflexivity].
  rewrite !ret_bind. f_equal. apply for_each_ext. intros i st'.
  unfold rk4_body. destruct (np.getitem st' i) as [s|e]; [|reflexivity].
  rewrite !ret_bind. destruct (np.getitem ts i) as [ti|e]; [|reflexivity].
  rewrite !ret_bind. rewrite rk4_increment_stretched by exact Hf. reflexivity.
Qed.

(** X9. What silent broadcasting computes: for a field that always returns
    a one-element derivative, the run is the run of the field that repeats
    this one slope for every component of the state, the same trajectory or
    the same exception. *)
Theorem single_slope_is_stretched {P : Type} (f : field P) state0 t_span dt params :
  (∀ s t, ∃ c, f s t params = Ok [c]) →
  runge_kutta4 f state0 t_span dt params
  = runge_kutta4 (stretched f) state0 t_span dt params.
Proof. apply runge_kutta4_single_slope. Qed.

Lemma single_slope_is_stretched_witness :
  runge_kutta4 (const_field [1]) [0; 5] (0, 0.3) 0.1 tt
  = runge_kutta4 (stretched (const_field [1])) [0; 5] (0, 0.3) 0.1 tt.
Proof.
  apply single_slope_is_stretched. intros s t. exists 1. reflexivity.
Defined.

(** ** Fields that do not depend on time *)

Lemma rk4_increment_autonomous {P : Type} (f : field P) params dt s ti ti' :
  (∀ s t t', f s t params = f s t' params) →
  rk4_increment f params dt s ti = rk4_increment f params dt s ti'.
Proof.
  intros Hf. unfold rk4_increment.
  rewrite (Hf s ti ti'). destruct (f s ti' params) as [y1|e]; [|reflexivity].
  rewrite !ret_bind.
  destruct (np.add s (np.divs (np.muls y1 dt) 2)) as [a2|e]; [|reflexivity].
  rewrite !ret_bind. rewrite (Hf a2 (ti + dt / 2) (ti' + dt / 2)).
  destruct (f a2 (ti' + dt / 2) params) as [y2|e]; [|reflexivity].
  rewrite !ret_bind.
  destruct (np.add s (np.divs (np.muls y2 dt) 2)) as [a3|e]; [|reflexivity].
  rewrite !ret_bind. rewrite (Hf a3 (ti + dt / 2) (ti' + dt / 2)).
  destruct (f a3 (ti' + dt / 2) params) as [y3|e]; [|reflexivity].
  rewrite !ret_bind.
  destruct (np.add s (np.muls y3 dt)) as [a4|e]; [|reflexivity].
  rewrite !ret_bind. rewrite (Hf a4 (ti + dt) (ti' + dt)). reflexivity.
Qed.

(** X10. For a field that does not depend on time, such as the motor model,
    the states do not depend on where the span starts: two runs with the
    same field, initial state, step and parameters agree on the states they
    share, whatever their spans. *)
Theorem autonomous_states {P : Type} (f : field P) state0 t0 tf t0' tf' dt params
    ts states ts' states' :
  (∀ s t t', f s t params = f s t' params) →
  runge_kutta4 f state0 (t0, tf) dt params = Ok (ts, states) →
  runge_kutta4 f state0 (t0', tf') dt params = Ok (ts', states') →
  (length ts ≤ length ts')%nat →
  states = take (length states) states'.
Proof.
  intros Hf H H' Hle.
  apply runge_kutta4_spec in H as (Ht & Hn & Hlen & _ & H0 & Hstep).
  apply runge_kutta4_spec in H' as (Ht' & Hn' & Hlen' & _ & H0' & Hstep').
  apply take_of_lookups; [lia|]. rewrite Hlen.
  intros i. induction i as [|i IH]; intros Hi.
  - rewrite H0, H0'. reflexivity.
  - destruct (Hstep i ltac:(lia)) as (s & ti & v & row & Hs & Hti & Hv & Hfit & Hr).
    destruct (Hstep' i ltac:(lia)) as (s' & ti' & v' & row' & Hs' & Hti' & Hv' & Hfit' & Hr').
    replace (S i) with (i + 1)%nat by lia. rewrite Hr, Hr'.
    rewrite IH, Hs' in Hs by lia. injection Hs as <-.
    rewrite (rk4_increment_autonomous f params dt s' ti ti' Hf), Hv' in Hv.
    congruence.
Qed.

Lemma autonomous_states_witness :
  ∃ ts states ts' states',
    runge_kutta4 dc_motor_ode motor_state0 (0.0, 0.03) 0.01 motor_params
    = Ok (ts, states)
    ∧ runge_kutta4 dc_motor_ode motor_state0 (5.0, 5.05) 0.01 motor_params
      = Ok (ts', states')
    ∧ states = take (length states) states'.
Proof.
  destruct (runge_kutta4 dc_motor_ode motor_state0 (0.0, 0.03) 0.01 motor_params)
    as [[ts states]|e] eqn:H; [|vm_compute in H; discriminate H].
  destruct (runge_kutta4 dc_motor_ode motor_state0 (5.0, 5.05) 0.01 motor_params)
    as [[ts' states']|e] eqn:H'; [|vm_compute in H'; discriminate H'].
  assert (Hn : length ts = 3%nat)
    by (vm_compute in H; injection H as <- _; reflexivity).
  assert (Hn' : (3 ≤ length ts')%nat)
    by (vm_compute in H'; injection H' as <- _; simpl; lia).
  exists ts, states, ts', states'.
  split; [reflexivity|]. split; [reflexivity|].
  apply (autonomous_states dc_motor_ode motor_state0 0.0 0.03 5.0 5.05 0.01 motor_params
           ts states ts' states'); auto.
  lia.
Defined.

(** ** Rest points *)

Lemma all_zero_muls y dt sg m e :
  Prim2SF dt = S754_finite sg m e → all_zero y → all_zero (np.muls y dt).
Proof.
  intros Hdt Hy. apply all_zero_map; [|exact Hy]. intros x Hx. eapply mul_zero_l; eauto.
Qed.

Lemma all_zero_half y : all_zero y → all_zero (np.divs y 2).
Proof.
  intros Hy. apply all_zero_map; [|exact Hy]. intros x Hx.
  eapply div_zero_l; [exact Hx | exact Prim2SF_two].
Qed.

Lemma all_zero_double y : all_zero y → all_zero (np.smul 2 y).
Proof.
  intros Hy. apply all_zero_map; [|exact Hy]. intros x Hx.
  eapply mul_zero_r; [exact Hx | exact Prim2SF_two].
Qed.

Lemma all_zero_sixth y : all_zero y → all_zero (np.divs y 6).
Proof.
  intros Hy. apply all_zero_map; [|exact Hy]. intros x Hx.
  destruct Prim2SF_six as (m6 & e6 & E6). eapply div_zero_l; eauto.
Qed.

Lemma add_rest s z :
  Forall (λ x, x ≠ neg_zero) s → length z = length s → all_zero z →
  np.add s z = Ok s.
Proof.
  intros Hs Hl Hz. destruct (add_state_zero s z (eq_sym Hl) Hz) as (s' & Ha & _ & Hex).
  rewrite Ha, (Hex Hs). reflexivity.
Qed.

(** One iteration started at a rest point of the field returns it. *)
Lemma rk4_increment_rest {P : Type} (f : field P) params dt s ti sg m e :
  (∀ t, ∃ y, f s t params = Ok y ∧ length y = length s ∧ all_zero y) →
  Forall (λ x, x ≠ neg_zero) s →
  Prim2SF dt = S754_finite sg m e →
  rk4_increment f params dt s ti = Ok s.
Proof.
  intros Hf Hs Hdt. unfold rk4_increment.
  destruct (Hf ti) as (y1 & -> & L1 & Z1). rewrite ret_bind.
  rewrite (add_rest s (np.divs (np.muls y1 dt) 2)), ret_bind;
    [| exact Hs | unfold np.divs, np.muls; rewrite !length_map; exact L1
     | eauto using all_zero_half, all_zero_muls].
  destruct (Hf (ti + dt / 2)) as (y2 & E2 & L2 & Z2). rewrite E2, ret_bind.
  rewrite (add_rest s (np.divs (np.muls y2 dt) 2)), ret_bind;
    [| exact Hs | unfold np.divs, np.muls; rewrite !length_map; exact L2
     | eauto using all_zero_half, all_zero_muls].
  rewrite E2, ret_bind.
  rewrite (add_rest s (np.muls y2 dt)), ret_bind;
    [| exact Hs | unfold np.muls; rewrite !length_map; exact L2
     | eauto using all_zero_muls].
  destruct (Hf (ti + dt)) as (y4 & -> & L4 & Z4). rewrite ret_bind.
  destruct (add_all_zero (np.muls y1 dt) (np.smul 2 (np.muls y2 dt)))
    as (u1 & -> & Lu1 & Zu1);
    [unfold np.smul, np.muls; rewrite !length_map; lia
    | eauto using all_zero_muls | eauto using all_zero_double, all_zero_muls |].
  rewrite ret_bind.
  destruct (add_all_zero u1 (np.smul 2 (np.muls y2 dt))) as (u2 & -> & Lu2 & Zu2);
    [unfold np.smul, np.muls in *; rewrite !length_map in *; lia
    | exact Zu1 | eauto using all_zero_double, all_zero_muls |].
  rewrite ret_bind.
  destruct (add_all_zero u2 (np.muls y4 dt)) as (u3 & -> & Lu3 & Zu3);
    [unfold np.smul, np.muls in *; rewrite !length_map in *; lia
    | exact Zu2 | eauto using all_zero_muls |].
  rewrite ret_bind.
  apply add_rest; [exact Hs | | apply all_zero_sixth; exact Zu3].
  unfold np.divs, np.smul, np.muls in *. rewrite !length_map in *. lia.
Qed.

Lemma rk4_loop_rest {P : Type} (f : field P) params dt ts state0 sg m e k :
  (∀ t, ∃ y, f state0 t params = Ok y ∧ length y = length state0 ∧ all_zero y) →
  Forall (λ x, x ≠ neg_zero) state0 →
  Prim2SF dt = S754_finite sg m e →
  ∀ i0 st,
    length st = length ts → (i0 + k < length ts)%nat →
    rect (length state0) st →
    (∀ j, (j ≤ i0)%nat → st !! j = Some state0) →
    ∃ st',
      for_each (rk4_body f params dt ts) (seq i0 k) st = Ok st'
      ∧ length st' = length st
      ∧ ∀ j, (j ≤ i0 + k)%nat → st' !! j = Some state0.
Proof.
  intros Hf Hnz Hdt. induction k as [|k IH]; intros i0 st Hlen Hk Hrect Hinv.
  - exists st. repeat split; auto. intros j Hj. apply Hinv. lia.
  - cbn [seq for_each].
    destruct (lookup_lt_is_Some_2 ts i0 ltac:(lia)) as [ti Hti].
    destruct (lookup_lt_is_Some_2 st (i0 + 1) ltac:(lia)) as [old Hold].
    assert (Hbody : rk4_body f params dt ts i0 st = Ok (<[(i0 + 1)%nat := state0]> st)).
    { unfold rk4_body, np.getitem. rewrite (Hinv i0) by lia. rewrite Hti, !ret_bind.
      rewrite (rk4_increment_rest f params dt state0 ti sg m e Hf Hnz Hdt), ret_bind.
      unfold np.setrow. rewrite Hold, (rect_lookup _ _ _ _ Hrect Hold), fit_row_same.
      reflexivity. }
    rewrite Hbody, ret_bind.
    destruct (IH (S i0) (<[(i0 + 1)%nat := state0]> st)) as (st' & Hloop & Hlen' & Hinv').
    + rewrite length_insert. exact Hlen.
    + lia.
    + apply Forall_insert; [exact Hrect | reflexivity].
    + intros j Hj. destruct (decide (j = (i0 + 1)%nat)) as [->|Hne].
      * apply list_lookup_insert_eq. lia.
      * rewrite list_lookup_insert_ne by lia. apply Hinv. lia.
    + exists st'. split; [exact Hloop|]. rewrite Hlen', length_insert.
      split; [reflexivity|]. intros j Hj. apply Hinv'. lia.
Qed.

(** A run started at a rest point of the field stays there. *)
Lemma runge_kutta4_rest {P : Type} (f : field P) state0 t0 tf dt params ts :
  (∀ t, ∃ y, f state0 t params = Ok y ∧ length y = length state0 ∧ all_zero y) →
  Forall (λ x, x ≠ neg_zero) state0 →
  np.arange t0 tf dt = Ok ts → ts ≠ [] →
  runge_kutta4 f state0 (t0, tf) dt params = Ok (ts, replicate (length ts) state0).
Proof.
  intros Hf Hnz Ht Hne.
  set (st0 := <[0%nat := state0]> (np.zeros (length ts) (length state0))).
  assert (Hn : (1 ≤ length ts)%nat) by (destruct ts; [congruence | simpl; lia]).
  assert (Hlen0 : length st0 = length ts).
  { unfold st0, np.zeros. rewrite length_insert, length_replicate. reflexivity. }
  assert (H0 : st0 !! 0%nat = Some state0).
  { apply list_lookup_insert_eq. unfold np.zeros. rewrite length_replicate. lia. }
  assert (Hloop : ∃ st',
             for_each (rk4_body f params dt ts) (seq 0 (length ts - 1)) st0 = Ok st'
             ∧ length st' = length st0
             ∧ ∀ j, (j ≤ length ts - 1)%nat → st' !! j = Some state0).
  { destruct (decide (length ts = 1%nat)) as [E1|E1].
    - rewrite E1. simpl. exists st0. repeat split; auto.
      intros j Hj. assert (j = 0%nat) as -> by lia. exact H0.
    - pose proof Ht as Ht'. apply arange_Ok in Ht' as (len & Hl & _).
      pose proof (arange_length _ _ _ _ _ Ht Hl) as Hlts.
      destruct (calc_length_step_finite _ _ _ _ Hl ltac:(lia)) as (sg & m & e & Hdt).
      apply (rk4_loop_rest f params dt ts state0 sg m e (length ts - 1) Hf Hnz Hdt
               0%nat st0); auto; [lia | | ].
      + apply Forall_insert; [apply rect_zeros | reflexivity].
      + intros j Hj. assert (j = 0%nat) as -> by lia. exact H0. }
  destruct Hloop as (states & Hrun & Hlen & Hinv).
  assert (states = replicate (length ts) state0) as ->.
  { apply list_eq. intros i. destruct (decide (i < length ts)%nat) as [Hi|Hi].
    - rewrite Hinv by lia. symmetry. apply lookup_replicate_2. exact Hi.
    - rewrite (lookup_ge_None_2 states) by lia.
      symmetry. apply lookup_ge_None_2. rewrite length_replicate. lia. }
  apply runge_kutta4_Ok. auto.
Qed.

(** X11. A rest point of the field is a fixed point of the integrator: if
    at the initial state the field returns a zero vector at every time, and
    no component of the initial state is [-0.0], then for every non-empty
    grid the run returns and every state is the initial state, bit for bit. *)
Theorem rest_point_is_fixed {P : Type} (f : field P) state0 t0 tf dt params ts :
  (∀ t, ∃ y, f state0 t params = Ok y ∧ length y = length state0 ∧ all_zero y) →
  Forall (λ x, x ≠ neg_zero) state0 →
  np.arange t0 tf dt = Ok ts → ts ≠ [] →
  runge_kutta4 f state0 (t0, tf) dt params = Ok (ts, replicate (length ts) state0).
Proof. apply runge_kutta4_rest. Qed.

Lemma rest_point_is_fixed_witness :
  runge_kutta4 (λ s _ (_ : unit), Ok (map (λ x, x - 7.5) s)) [7.5] (0, 0.3) 0.1 tt
  = Ok ([0; 0.1; 0.2], [[7.5]; [7.5]; [7.5]]).
Proof.
  apply (rest_point_is_fixed (λ s _ (_ : unit), Ok (map (λ x, x - 7.5) s)) [7.5]
           0 0.3 0.1 tt [0; 0.1; 0.2]).
  - intros t. exists [0]. repeat split. constructor; [reflexivity | constructor].
  - constructor; [|constructor]. intros H. discriminate H.
  - vm_compute. reflexivity.
  - discriminate.
Defined.

(** ** The motor without voltage *)

Lemma finite_mul_zero c : finite c → is_zero (c * 0) = true.
Proof.
  unfold finite. intros Hc. apply is_zero_spec. rewrite mul_spec.
  change (Prim2SF 0) with (S754_zero false).
  destruct (Prim2SF c) as [s|s| |s m e]; try contradiction; simpl; eauto.
Qed.

Lemma sub_zero_zero x y : is_zero x = true → is_zero y = true → is_zero (x - y) = true.
Proof.
  intros Hx Hy. apply is_zero_spec in Hx as [sx Hx]. apply is_zero_spec in Hy as [sy Hy].
  apply is_zero_spec. rewrite sub_spec, Hx, Hy. destruct sx, sy; simpl; eauto.
Qed.

Lemma zero_div_nonzero x c :
  is_zero x = true → finite c → is_zero c = false → is_zero (x / c) = true.
Proof.
  intros Hx Hc Hnz. unfold finite in Hc.
  destruct (Prim2SF c) as [s|s| |s m e] eqn:Ec; try contradiction.
  - apply is_zero_Prim2SF in Ec. congruence.
  - eapply div_zero_l; eauto.
Qed.

(** At rest and without voltage the motor model returns a zero derivative. *)
Lemma dc_motor_ode_rest J b Kt Ke R L u t :
  finite b → finite Kt → finite Ke → finite R →
  finite J → is_zero J = false → finite L → is_zero L = false →
  is_zero u = true →
  ∃ y, dc_motor_ode [0; 0] t [J; b; Kt; Ke; R; L; u] = Ok y
       ∧ length y = 2%nat ∧ all_zero y.
Proof.
  intros Hb HKt HKe HR HJ HJ0 HL HL0 Hu. eexists. split; [reflexivity|].
  split; [reflexivity|]. unfold all_zero.
  repeat (apply Forall_cons; split); [| | apply Forall_nil; exact I].
  - apply zero_div_nonzero; auto. apply sub_zero_zero; apply finite_mul_zero; assumption.
  - apply zero_div_nonzero; auto.
    apply sub_zero_zero; [|apply finite_mul_zero; assumption].
    apply sub_zero_zero; [exact Hu | apply finite_mul_zero; assumption].
Qed.

(** X12. The motor at rest with no voltage stays at rest: for finite
    parameters with non-zero inertia and inductance and [u = 0], the run
    from the state [(0, 0)] returns, for every non-empty grid, a trajectory
    whose states are all [(0, 0)]. *)
Theorem unpowered_motor_stays_at_rest J b Kt Ke R L u t0 tf dt ts :
  finite b → finite Kt → finite Ke → finite R →
  finite J → is_zero J = false → finite L → is_zero L = false →
  is_zero u = true →
  np.arange t0 tf dt = Ok ts → ts ≠ [] →
  runge_kutta4 dc_motor_ode [0; 0] (t0, tf) dt [J; b; Kt; Ke; R; L; u]
  = Ok (ts, replicate (length ts) [0; 0]).
Proof.
  intros Hb HKt HKe HR HJ HJ0 HL HL0 Hu Ht Hne.
  apply runge_kutta4_rest; [| | exact Ht | exact Hne].
  - intros t. apply dc_motor_ode_rest; assumption.
  - repeat (apply Forall_cons; split); try (apply Forall_nil; exact I);
      intros H; discriminate H.
Qed.

Lemma unpowered_motor_stays_at_rest_witness :
  runge_kutta4 dc_motor_ode [0; 0] (0.0, 0.03) 0.01 [0.01; 0.1; 0.1; 0.1; 1.0; 0.1; 0]
  = Ok ([0; 0.01; 0.02], [[0; 0]; [0; 0]; [0; 0]]).
Proof.
  apply (unpowered_motor_stays_at_rest 0.01 0.1 0.1 0.1 1.0 0.1 0 0.0 0.03 0.01
           [0; 0.01; 0.02]); try exact I; try reflexivity.
  discriminate.
Defined.

(** ** Rounding a number that is not below the smallest subnormal *)

Lemma shr_1_value r : (0 ≤ shr_m r)%Z → shr_m (shr_1 r) = (shr_m r / 2)%Z.
Proof.
  destruct r as [m rb sb]. simpl. intros Hm.
  destruct m as [|p|p]; [reflexivity | | lia].
  destruct p as [p|p|]; simpl shr_m.
  - rewrite Pos2Z.inj_xI. apply Z.div_unique with (r := 1%Z); lia.
  - rewrite Pos2Z.inj_xO. apply Z.div_unique with (r := 0%Z); lia.
  - reflexivity.
Qed.

Lemma iter_shr_1_value p :
  ∀ r, (0 ≤ shr_m r)%Z →
       shr_m (SpecFloat.iter_pos shr_1 p r) = (shr_m r / 2 ^ Z.pos p)%Z.
Proof.
  assert (Hpow : ∀ k, (0 ≤ k → 0 < 2 ^ k)%Z)
    by (intros k Hk; apply Z.pow_pos_nonneg; lia).
  assert (Hdiv : ∀ a k, (0 ≤ a → 0 ≤ k → 0 ≤ a / 2 ^ k)%Z).
  { intros a k Ha Hk. apply Z.div_pos; [exact Ha | apply Hpow; exact Hk]. }
  assert (Hdd : ∀ a j k, (0 ≤ j → 0 ≤ k → a / 2 ^ j / 2 ^ k = a / 2 ^ (j + k))%Z).
  { intros a j k Hj Hk. rewrite Z.pow_add_r by lia.
    pose proof (Hpow j Hj). pose proof (Hpow k Hk).
    apply Z.div_div; lia. }
  induction p as [p IH|p IH|]; intros r Hr; simpl SpecFloat.iter_pos.
  - assert (H1 : (0 ≤ shr_m (shr_1 r))%Z).
    { rewrite shr_1_value by exact Hr. apply (Hdiv _ 1%Z); lia. }
    assert (H2 : (0 ≤ shr_m (SpecFloat.iter_pos shr_1 p (shr_1 r)))%Z).
    { rewrite IH by exact H1. apply Hdiv; lia. }
    rewrite IH by exact H2. rewrite IH by exact H1. rewrite shr_1_value by exact Hr.
    change (shr_m r / 2)%Z with (shr_m r / 2 ^ 1)%Z.
    rewrite !Hdd by lia. f_equal. f_equal. lia.
  - assert (H2 : (0 ≤ shr_m (SpecFloat.iter_pos shr_1 p r))%Z).
    { rewrite IH by exact Hr. apply Hdiv; lia. }
    rewrite IH by exact H2. rewrite IH by exact Hr.
    rewrite !Hdd by lia. f_equal. f_equal. lia.
  - rewrite shr_1_value by exact Hr. reflexivity.
Qed.

(** After [shr_fexp] a positive mantissa that has more than [emin - e]
    digits is still positive, and the exponent is at least [emin]. *)
Lemma shr_fexp_positive m e l :
  (0 < m)%Z → (∃ k, 0 ≤ k ∧ emin - e ≤ k ∧ 2 ^ k ≤ m)%Z →
  let '(r, e') := shr_fexp prec emax m e l in
  (0 < shr_m r)%Z ∧ (e ≤ e')%Z ∧ (e' = e ∨ emin ≤ e')%Z
  ∧ (e' = e → shr_m r = m).
Proof.
  intros Hm (k & Hk0 & Hk & Hpow). unfold shr_fexp, shr.
  destruct m as [|p|p]; try lia. simpl Zdigits2.
  set (d := Z.pos (digits2_pos p)).
  pose proof (digits2_pos_bounds p) as [Hlo Hhi]. fold d in Hlo, Hhi.
  assert (Hrec : ∀ l, shr_m (shr_record_of_loc (Z.pos p) l) = Z.pos p).
  { intros [|[| |]]; reflexivity. }
  destruct (fexp prec emax (d + e) - e)%Z as [|n|n] eqn:Hn.
  - rewrite Hrec. repeat split; auto; lia.
  - rewrite iter_shr_1_value by (rewrite Hrec; lia). rewrite Hrec.
    unfold fexp in Hn.
    assert (Hnd : (Z.pos n ≤ d - 1)%Z).
    { destruct (Z.max_spec (d + e - prec) emin) as [[_ E]|[_ E]]; rewrite E in Hn.
      - assert (Hkd : (k < d)%Z).
        { apply (Z.pow_lt_mono_r_iff 2); try lia. }
        lia.
      - unfold prec in *. lia. }
    assert (Hge : (2 ^ Z.pos n ≤ Z.pos p)%Z).
    { eapply Z.le_trans; [|exact Hlo]. apply Z.pow_le_mono_r; lia. }
    assert (Hq : (1 ≤ Z.pos p / 2 ^ Z.pos n)%Z).
    { apply Z.div_le_lower_bound; [apply Z.pow_pos_nonneg; lia | lia]. }
    split; [lia|]. split; [lia|]. split; [right|intros E; lia].
    unfold fexp in Hn. lia.
  - rewrite Hrec. repeat split; auto; lia.
Qed.

Lemma round_nearest_even_ge mx lx : (mx ≤ round_nearest_even mx lx)%Z.
Proof.
  unfold round_nearest_even. destruct lx as [|[| |]]; try lia.
  destruct (Z.even mx); lia.
Qed.

(** Rounding a positive mantissa at an exponent from which it is not below
    the smallest subnormal gives a finite number or an infinity, with the
    sign asked for. *)
Lemma binary_round_aux_positive s m e l :
  (0 < m)%Z → (∃ k, 0 ≤ k ∧ emin - e ≤ k ∧ 2 ^ k ≤ m)%Z →
  match binary_round_aux prec emax s m e l with
  | S754_finite s' _ _ | S754_infinity s' => s' = s
  | _ => False
  end.
Proof.
  intros Hm Hk. unfold binary_round_aux.
  pose proof (shr_fexp_positive m e l Hm Hk) as H1.
  destruct (shr_fexp prec emax m e l) as [r1 e1].
  destruct H1 as (Hr1 & He1 & Hcase & Hsame).
  pose proof (round_nearest_even_ge (shr_m r1) (loc_of_shr_record r1)) as Hge.
  set (m2 := round_nearest_even (shr_m r1) (loc_of_shr_record r1)) in *.
  assert (Hk2 : (∃ k, 0 ≤ k ∧ emin - e1 ≤ k ∧ 2 ^ k ≤ m2)%Z).
  { destruct Hcase as [E|E].
    - destruct Hk as (k & Hk0 & Hk1 & Hk2). exists k. rewrite (Hsame E) in Hge.
      subst e1. repeat split; lia.
    - exists 0%Z. simpl. repeat split; lia. }
  pose proof (shr_fexp_positive m2 e1 loc_Exact ltac:(lia) Hk2) as H2.
  destruct (shr_fexp prec emax m2 e1 loc_Exact) as [r2 e2].
  destruct H2 as (Hr2 & _).
  destruct (shr_m r2) as [|p|p]; try lia.
  destruct (Z.leb e2 (emax - prec)); reflexivity.
Qed.

Lemma binary_round_positive s m e :
  (emin ≤ e)%Z →
  match binary_round prec emax s m e with
  | S754_finite s' _ _ | S754_infinity s' => s' = s
  | _ => False
  end.
Proof.
  intros He. unfold binary_round.
  assert (Hf : (emin ≤ fexp prec emax (Z.pos (digits2_pos m) + e))%Z)
    by (unfold fexp; lia).
  assert (Hez : (emin ≤ snd (shl_align m e (fexp prec emax (Z.pos (digits2_pos m) + e))))%Z).
  { unfold shl_align.
    destruct (fexp prec emax (Z.pos (digits2_pos m) + e) - e)%Z; simpl; lia. }
  destruct (shl_align m e (fexp prec emax (Z.pos (digits2_pos m) + e))) as [mz ez].
  simpl in Hez. apply binary_round_aux_positive; [lia|].
  exists 0%Z. simpl. repeat split; lia.
Qed.

(** [y < x] makes [x - y] a positive number or [+infinity]: a difference of
    distinct numbers does not underflow. *)
Lemma SFsub_positive x y :
  valid_binary x = true → valid_binary y = true →
  SFltb y x = true →
  match SF64sub x y with
  | S754_finite s _ _ | S754_infinity s => s = false
  | _ => False
  end.
Proof.
  intros Vx Vy. unfold SFltb.
  destruct x as [sx|sx| |sx mx ex], y as [sy|sy| |sy my ey];
    try (simpl; try destruct sx; try destruct sy; simpl; (discriminate || auto); fail).
  rewrite (SFcompare_finite _ _ _ _ _ _ Vy Vx). rewrite Z.min_comm.
  intros Hc. change (SF64sub (S754_finite sx mx ex) (S754_finite sy my ey))
    with (binary_normalize prec emax
            (aligned sx mx ex (Z.min ex ey) - aligned sy my ey (Z.min ex ey))
            (Z.min ex ey) false).
  set (a := aligned sx mx ex (Z.min ex ey)) in *.
  set (b := aligned sy my ey (Z.min ex ey)) in *.
  destruct (Z.compare_spec b a) as [E|E|E]; try discriminate.
  apply valid_binary_finite in Vx as (_ & Hex & _).
  apply valid_binary_finite in Vy as (_ & Hey & _).
  destruct (a - b)%Z as [|p|p] eqn:Hd; try lia.
  simpl. apply binary_round_positive. lia.
Qed.

Lemma get_sign_pos_zero v : Prim2SF v = S754_zero false → get_sign v = false.
Proof.
  intros Hv. unfold get_sign. rewrite (is_zero_Prim2SF _ _ Hv).
  rewrite ltb_spec, div_spec, Hv. reflexivity.
Qed.

Lemma ceil_finite_positive m e : (1 ≤ np.ceil_finite false m e)%Z.
Proof.
  unfold np.ceil_finite. destruct (0 <=? e)%Z eqn:He.
  - apply Z.leb_le in He. pose proof (Z.pow_pos_nonneg 2 e ltac:(lia) He). nia.
  - apply Z.leb_gt in He.
    pose proof (Z.pow_pos_nonneg 2 (- e) ltac:(lia) ltac:(lia)) as Hp.
    assert ((- Z.pos m) / 2 ^ (- e) < 0)%Z by (apply Z.div_lt_upper_bound; lia).
    lia.
Qed.

(** [x < y] makes [x - y] a negative number or [-infinity]. *)
Lemma SFsub_negative x y :
  valid_binary x = true → valid_binary y = true →
  SFltb x y = true →
  match SF64sub x y with
  | S754_finite s _ _ | S754_infinity s => s = true
  | _ => False
  end.
Proof.
  intros Vx Vy. unfold SFltb.
  destruct x as [sx|sx| |sx mx ex], y as [sy|sy| |sy my ey];
    try (simpl; try destruct sx; try destruct sy; simpl; (discriminate || auto); fail).
  rewrite (SFcompare_finite _ _ _ _ _ _ Vx Vy).
  intros Hc. change (SF64sub (S754_finite sx mx ex) (S754_finite sy my ey))
    with (binary_normalize prec emax
            (aligned sx mx ex (Z.min ex ey) - aligned sy my ey (Z.min ex ey))
            (Z.min ex ey) false).
  set (a := aligned sx mx ex (Z.min ex ey)) in *.
  set (b := aligned sy my ey (Z.min ex ey)) in *.
  destruct (Z.compare_spec a b) as [E|E|E]; try discriminate.
  apply valid_binary_finite in Vx as (_ & Hex & _).
  apply valid_binary_finite in Vy as (_ & Hey & _).
  destruct (a - b)%Z as [|p|p] eqn:Hd; try lia.
  simpl. apply binary_round_positive. lia.
Qed.

(** ** A span and a step that point the same way *)

Lemma nonzero_step dt :
  (0 <? dt) = true ∨ (dt <? 0) = true → is_zero dt = false.
Proof.
  intros H. destruct (is_zero dt) eqn:E; [|reflexivity].
  apply is_zero_spec in E as [s E]. rewrite !ltb_spec, E in H.
  destruct s, H as [H|H]; discriminate H.
Qed.

Lemma directed_signs t0 tf dt :
  directed t0 tf dt →
  ∃ sg, match Prim2SF (tf - t0) with
        | S754_finite s _ _ | S754_infinity s => s = sg
        | _ => False
        end
        ∧ SFsignbit (Prim2SF dt) = Some sg.
Proof.
  intros [[Hlt Hdt]|[Hlt Hdt]]; rewrite ltb_spec in Hlt, Hdt;
    change (Prim2SF 0) with (S754_zero false) in Hdt; unfold SFltb in Hdt.
  - exists false. split.
    + rewrite sub_spec. apply SFsub_positive; auto using Prim2SF_valid.
    + destruct (Prim2SF dt) as [s|s| |s m e]; try destruct s; simpl in *;
        try discriminate; reflexivity.
  - exists true. split.
    + rewrite sub_spec. apply SFsub_negative; auto using Prim2SF_valid.
    + destruct (Prim2SF dt) as [s|s| |s m e]; try destruct s; simpl in *;
        try discriminate; reflexivity.
Qed.

(** The only binary64 number whose ceiling is [2^63] is [2^63] itself. *)
Lemma ceil_finite_wraps m e :
  valid_binary (S754_finite false m e) = true →
  np.ceil_finite false m e = (2 ^ 63)%Z →
  m = 4503599627370496%positive ∧ e = 11%Z.
Proof.
  intros V. apply valid_binary_finite in V as (Hm & He & Hn).
  unfold emin, emax, prec in *. unfold np.ceil_finite.
  destruct (0 <=? e)%Z eqn:E.
  - apply Z.leb_le in E. intros H.
    assert (Hm52 : (2 ^ 52 ≤ Z.pos m)%Z) by lia.
    destruct (Z_lt_le_dec e 11) as [Hlt|Hge].
    { exfalso. pose proof (Z.pow_le_mono_r 2 e 10 ltac:(lia) ltac:(lia)) as Hp.
      pose proof (Z.pow_pos_nonneg 2 e ltac:(lia) E). nia. }
    destruct (Z_lt_le_dec 11 e) as [Hgt|Hle].
    { exfalso. pose proof (Z.pow_le_mono_r 2 12 e ltac:(lia) ltac:(lia)) as Hp. nia. }
    assert (e = 11%Z) as -> by lia. split; [|reflexivity].
    change (2 ^ 11)%Z with 2048%Z in H. lia.
  - apply Z.leb_gt in E. intros H. exfalso.
    pose proof (Z.pow_pos_nonneg 2 (- e) ltac:(lia) ltac:(lia)) as Hp.
    assert (- Z.pos m ≤ (- Z.pos m) / 2 ^ (- e))%Z
      by (apply Z.div_le_lower_bound; [exact Hp | nia]).
    lia.
Qed.

(** When the span and the step point the same way, [np.arange] counts at
    least one sample, unless the quotient is exactly [2^63], which passes
    the range test and is converted to [-2^63]. *)
Lemma calc_length_directed t0 tf dt len :
  directed t0 tf dt →
  np.calc_length t0 tf dt = Ok len →
  (1 ≤ len)%Z
  ∨ (len = (- 2 ^ 63)%Z ∧ (tf - t0) / dt = 9223372036854775808).
Proof.
  intros Hdir H.
  destruct (directed_signs _ _ _ Hdir) as (sg & HN & HsD).
  pose proof (SFdiv_signbit (Prim2SF (tf - t0)) (Prim2SF dt)) as Hsign.
  rewrite <- div_spec in Hsign.
  assert (HsN : SFsignbit (Prim2SF (tf - t0)) = Some sg).
  { destruct (Prim2SF (tf - t0)); try contradiction; simpl; congruence. }
  assert (Hne : (tf - t0 =? 0) = false).
  { rewrite FloatAxioms.eqb_spec. change (Prim2SF 0) with (S754_zero false).
    destruct (Prim2SF (tf - t0)) as [s|s| |s m e]; try contradiction;
      simpl in HN; subst; destruct sg; reflexivity. }
  assert (Hpos : ∀ s, SFsignbit (Prim2SF ((tf - t0) / dt)) = Some s → s = false).
  { intros s Hs. rewrite Hs in Hsign. destruct Hsign as (sx & sy & Hx & Hy & ->).
    rewrite HsN in Hx. rewrite HsD in Hy. injection Hx as <-. injection Hy as <-.
    destruct sg; reflexivity. }
  clear Hsign.
  unfold np.calc_length in H. destruct (is_zero dt); [discriminate|].
  apply bind_Ok in H as (q & Hq & H). rewrite Hne in H.
  destruct (is_zero ((tf - t0) / dt)) eqn:Hz; simpl in H; injection H as <-.
  - left. apply is_zero_spec in Hz as [s Hz].
    rewrite Hz in Hpos. specialize (Hpos s eq_refl). subst s.
    rewrite (get_sign_pos_zero _ Hz). lia.
  - unfold np.safe_ceil_to_intp in Hq.
    pose proof (Prim2SF_valid ((tf - t0) / dt)) as V.
    destruct (Prim2SF ((tf - t0) / dt)) as [sv|sv| |sv m e] eqn:HV; try discriminate.
    + exfalso. assert (is_zero ((tf - t0) / dt) = true)
        by (eapply is_zero_Prim2SF; eauto). congruence.
    + rewrite (Hpos sv eq_refl) in *.
      destruct ((np.intp_min <=? np.ceil_finite false m e)%Z
                && (np.ceil_finite false m e <=? np.intp_max_as_double)%Z) eqn:Hr;
        [|discriminate].
      injection Hq as <-. apply andb_prop in Hr as [_ Hr]. apply Z.leb_le in Hr.
      pose proof (ceil_finite_positive m e) as Hc.
      destruct (to_intp_pos (np.ceil_finite false m e) ltac:(lia)) as [Hp|[Hc63 Hw]];
        [left; exact Hp | right].
      split; [exact Hw|].
      destruct (ceil_finite_wraps m e V Hc63) as [-> ->].
      apply Prim2SF_inj. rewrite HV. reflexivity.
Qed.

Lemma arange_Raise start stop step e :
  np.arange start stop step = Raise e →
  (e = ZeroDivisionError ∧ is_zero step = true)
  ∨ (e = ValueError ∧ is_zero step = false).
Proof.
  unfold np.arange, np.calc_length.
  destruct (is_zero step); [intros H; injection H as <-; auto|].
  unfold np.safe_ceil_to_intp.
  destruct (Prim2SF ((stop - start) / step)) as [s|s| |s m e'].
  - rewrite ret_bind.
    destruct (is_zero ((stop - start) / step) && negb (stop - start =? 0)); discriminate.
  - intros H. injection H as <-. auto.
  - intros H. injection H as <-. auto.
  - destruct ((np.intp_min <=? np.ceil_finite s m e')%Z
              && (np.ceil_finite s m e' <=? np.intp_max_as_double)%Z).
    + rewrite ret_bind.
      destruct (is_zero ((stop - start) / step) && negb (stop - start =? 0)); discriminate.
    + intros H. injection H as <-. auto.
Qed.

(** A call whose span and step point the same way, with a field that
    honours the contract: it returns a trajectory of at least one sample, or
    [np.arange] raised [ValueError], or the quotient is [2^63], the grid is
    empty and storing the initial state raises [IndexError]. *)
Lemma runge_kutta4_directed {P : Type} (f : field P) state0 t0 tf dt params :
  directed t0 tf dt →
  shape_respecting f params (length state0) →
  match runge_kutta4 f state0 (t0, tf) dt params with
  | Ok (ts, states) =>
      np.arange t0 tf dt = Ok ts ∧ ts ≠ [] ∧ ts !! 0%nat = Some t0
      ∧ states !! 0%nat = Some state0 ∧ length states = length ts
  | Raise e =>
      (e = ValueError ∧ np.arange t0 tf dt = Raise ValueError)
      ∨ (e = IndexError ∧ np.arange t0 tf dt = Ok []
         ∧ (tf - t0) / dt = 9223372036854775808)
  end.
Proof.
  intros Hdir Hf.
  assert (Hnz : is_zero dt = false).
  { apply nonzero_step. destruct Hdir as [[_ H]|[_ H]]; auto. }
  destruct (np.arange t0 tf dt) as [ts|e] eqn:Ht.
  - pose proof Ht as Ht'. apply arange_Ok in Ht' as (len & Hlen & Hts).
    destruct (calc_length_directed _ _ _ _ Hdir Hlen) as [H1|[Hw Hq]].
    + assert (Hne : ts ≠ []).
      { subst ts. destruct (Z.to_nat len) as [|n] eqn:En; [lia | discriminate]. }
      destruct (runge_kutta4_total f state0 t0 tf dt params ts Hf Ht Hne)
        as (states & E & Hl & _).
      rewrite E. split; [reflexivity|]. split; [exact Hne|].
      split; [|split; [|exact Hl]].
      * apply (arange_item_first _ _ _ _ Ht). destruct ts; [congruence | simpl; lia].
      * destruct (runge_kutta4_spec f state0 t0 tf dt params ts states E)
          as (_ & _ & _ & _ & H0 & _). exact H0.
    + assert (ts = []) as -> by (subst ts len; reflexivity).
      assert (E : runge_kutta4 f state0 (t0, tf) dt params = Raise IndexError)
        by (unfold runge_kutta4; rewrite Ht; reflexivity).
      rewrite E. right. auto.
  - assert (E : runge_kutta4 f state0 (t0, tf) dt params = Raise e)
      by (unfold runge_kutta4; rewrite Ht; reflexivity).
    rewrite E. left.
    destruct (arange_Raise _ _ _ _ Ht) as [[_ Hz]|[-> _]]; [congruence|]. auto.
Qed.

(** X13. A valid call, [t0 < tf] and [dt > 0] with a field that honours the
    contract, returns a trajectory of at least one sample that starts at
    [t0] with the initial state, with two exceptions, both decided by
    [np.arange] before the field is evaluated: the [ValueError] that
    [np.arange] raises when it cannot turn the quotient [(tf - t0)/dt] into
    a length; and [IndexError], only when the quotient is exactly [2^63],
    which passes the range test of [np.arange], wraps to a negative length
    and leaves an empty grid. *)
Theorem forward_span_run {P : Type} (f : field P) state0 t0 tf dt params :
  (t0 <? tf) = true → (0 <? dt) = true →
  shape_respecting f params (length state0) →
  match runge_kutta4 f state0 (t0, tf) dt params with
  | Ok (ts, states) =>
      np.arange t0 tf dt = Ok ts ∧ ts ≠ [] ∧ ts !! 0%nat = Some t0
      ∧ states !! 0%nat = Some state0 ∧ length states = length ts
  | Raise e =>
      (e = ValueError ∧ np.arange t0 tf dt = Raise ValueError)
      ∨ (e = IndexError ∧ np.arange t0 tf dt = Ok []
         ∧ (tf - t0) / dt = 9223372036854775808)
  end.
Proof.
  intros Hlt Hdt Hf. apply runge_kutta4_directed; [left; auto | exact Hf].
Qed.

Lemma forward_span_run_witness :
  match runge_kutta4 dc_motor_ode motor_state0 (0.0, 0.05) 0.01 motor_params with
  | Ok (ts, states) =>
      np.arange 0.0 0.05 0.01 = Ok ts ∧ ts ≠ [] ∧ ts !! 0%nat = Some 0.0
      ∧ states !! 0%nat = Some motor_state0 ∧ length states = length ts
  | Raise e =>
      (e = ValueError ∧ np.arange 0.0 0.05 0.01 = Raise ValueError)
      ∨ (e = IndexError ∧ np.arange 0.0 0.05 0.01 = Ok []
         ∧ (0.05 - 0.0) / 0.01 = 9223372036854775808)
  end.
Proof.
  apply (forward_span_run dc_motor_ode motor_state0 0.0 0.05 0.01 motor_params).
  - reflexivity.
  - reflexivity.
  - apply dc_motor_ode_shape. reflexivity.
Defined.

(** The two exceptions of a valid call occur: a span of [2^63] steps leaves
    an empty grid, a longer one is refused by [np.arange]. *)
Example forward_span_wraps :
  runge_kutta4 zero_field [1] (0, 9223372036854775808) 1 tt = Raise IndexError
  ∧ runge_kutta4 zero_field [1] (0, 1e19) 1 tt = Raise ValueError.
Proof. split; vm_compute; reflexivity. Qed.

(** X14. Integration backwards in time: for [tf < t0] and a negative step
    the code does not reject the call.  With a field that honours the
    contract it returns a trajectory of at least one sample that starts at
    [t0] with the initial state; the only exceptions are those of a forward
    call, [ValueError] from [np.arange] and, for a quotient
    [(tf - t0)/dt] of exactly [2^63], [IndexError] on an empty grid. *)
Theorem backward_span_run {P : Type} (f : field P) state0 t0 tf dt params :
  (tf <? t0) = true → (dt <? 0) = true →
  shape_respecting f params (length state0) →
  match runge_kutta4 f state0 (t0, tf) dt params with
  | Ok (ts, states) =>
      np.arange t0 tf dt = Ok ts ∧ ts ≠ [] ∧ ts !! 0%nat = Some t0
      ∧ states !! 0%nat = Some state0 ∧ length states = length ts
  | Raise e =>
      (e = ValueError ∧ np.arange t0 tf dt = Raise ValueError)
      ∨ (e = IndexError ∧ np.arange t0 tf dt = Ok []
         ∧ (tf - t0) / dt = 9223372036854775808)
  end.
Proof.
  intros Hlt Hdt Hf. apply runge_kutta4_directed; [right; auto | exact Hf].
Qed.

Lemma backward_span_run_witness :
  match runge_kutta4 dc_motor_ode motor_state0 (0.05, 0.0) (-0.01) motor_params with
  | Ok (ts, states) =>
      np.arange 0.05 0.0 (-0.01) = Ok ts ∧ ts ≠ [] ∧ ts !! 0%nat = Some 0.05
      ∧ states !! 0%nat = Some motor_state0 ∧ length states = length ts
  | Raise e =>
      (e = ValueError ∧ np.arange 0.05 0.0 (-0.01) = Raise ValueError)
      ∨ (e = IndexError ∧ np.arange 0.05 0.0 (-0.01) = Ok []
         ∧ (0.0 - 0.05) / (-0.01) = 9223372036854775808)
  end.
Proof.
  apply (backward_span_run dc_motor_ode motor_state0 0.05 0.0 (-0.01) motor_params).
  - reflexivity.
  - reflexivity.
  - apply dc_motor_ode_shape. reflexivity.
Defined.

Example backward_span_wraps :
  runge_kutta4 zero_field [1] (9223372036854775808, 0) (-1) tt = Raise IndexError.
Proof. vm_compute. reflexivity. Qed.

(** ** A span without an end *)

(** X15. A span with one infinite end is rejected, not iterated for ever:
    when one end of the span is an infinity, the other end is a number and
    the step is a non-zero number, the quotient [(tf - t0)/dt] is infinite
    and [runge_kutta4] raises the [ValueError] by which [np.arange] refuses
    a size that is too large, for every field, initial state and
    parameters. *)
Theorem unbounded_span_raises {P : Type} (f : field P) state0 t0 tf dt params :
  finite dt → is_zero dt = false →
  (finite t0 ∧ (tf = infinity ∨ tf = neg_infinity))
  ∨ (finite tf ∧ (t0 = infinity ∨ t0 = neg_infinity)) →
  runge_kutta4 f state0 (t0, tf) dt params = Raise ValueError.
Proof.
  intros Hdt Hz H.
  assert (Hd : ∃ s m e, Prim2SF dt = S754_finite s m e).
  { unfold finite in Hdt. destruct (Prim2SF dt) as [s|s| |s m e] eqn:E;
      try contradiction; [|eauto].
    rewrite (is_zero_Prim2SF _ _ E) in Hz. discriminate. }
  destruct Hd as (sd & md & ed & Hd).
  assert (Hn : ∃ s, Prim2SF (tf - t0) = S754_infinity s).
  { rewrite sub_spec. unfold finite in H.
    destruct H as [[H0 [-> | ->]] | [H0 [-> | ->]]].
    - change (Prim2SF infinity) with (S754_infinity false).
      destruct (Prim2SF t0) as [s|s| |s m e]; try contradiction; eexists; reflexivity.
    - change (Prim2SF neg_infinity) with (S754_infinity true).
      destruct (Prim2SF t0) as [s|s| |s m e]; try contradiction; eexists; reflexivity.
    - change (Prim2SF infinity) with (S754_infinity false).
      destruct (Prim2SF tf) as [s|s| |s m e]; try contradiction; eexists; reflexivity.
    - change (Prim2SF neg_infinity) with (S754_infinity true).
      destruct (Prim2SF tf) as [s|s| |s m e]; try contradiction; eexists; reflexivity. }
  destruct Hn as [sn Hn].
  assert (Hv : Prim2SF ((tf - t0) / dt) = S754_infinity (xorb sn sd)).
  { rewrite div_spec, Hn, Hd. reflexivity. }
  unfold runge_kutta4, np.arange, np.calc_length.
  rewrite Hz. unfold np.safe_ceil_to_intp. rewrite Hv. reflexivity.
Qed.

Lemma unbounded_span_raises_witness :
  runge_kutta4 dc_motor_ode motor_state0 (0.0, infinity) 0.01 motor_params
  = Raise ValueError.
Proof.
  apply unbounded_span_raises.
  - exact I.
  - reflexivity.
  - left. split; [exact I | left; reflexivity].
Defined.

(** ** A derivative of the wrong length makes the call raise *)

Lemma add_mismatch a b :
  length a ≠ length b → length a ≠ 1%nat → length b ≠ 1%nat →
  np.add a b = Raise ValueError.
Proof.
  intros H1 H2 H3. unfold np.add, np.broadcast.
  repeat case_decide; try contradiction; reflexivity.
Qed.

Lemma add_Raise a b e : np.add a b = Raise e → e = ValueError.
Proof.
  unfold np.add, np.broadcast. repeat case_decide; intros Hr; try discriminate.
  injection Hr as <-. reflexivity.
Qed.

Lemma fit_row_Raise d v e : np.fit_row d v = Raise e → e = ValueError.
Proof.
  unfold np.fit_row. repeat case_decide; intros Hr; try discriminate.
  injection Hr as <-. reflexivity.
Qed.

(** Operands whose lengths are [d] or 1 always add up, to such a length. *)
Lemma add_fitting d a b :
  length a = d ∨ length a = 1%nat → length b = d ∨ length b = 1%nat →
  ∃ c, np.add a b = Ok c ∧ (length c = d ∨ length c = 1%nat).
Proof.
  intros Ha Hb. unfold np.add, np.broadcast.
  repeat case_decide; try lia; eexists; (split; [reflexivity|]);
    rewrite ?length_zip_with, ?length_map; lia.
Qed.

Lemma add_to_state d s k a :
  length s = d → d ≠ 1%nat → np.add s k = Ok a →
  (length k = d ∨ length k = 1%nat) ∧ length a = d.
Proof.
  intros Hs Hd H. apply broadcast_bshape in H.
  apply bshape_left in H; [|lia]. lia.
Qed.

(** The exceptions of an iteration come from NumPy's broadcasting, which
    raises [ValueError], or from the field. *)
Lemma rk4_increment_Raise {P : Type} (f : field P) params dt s ti e :
  rk4_increment f params dt s ti = Raise e →
  e = ValueError ∨ ∃ s' t', f s' t' params = Raise e.
Proof.
  unfold rk4_increment.
  repeat match goal with
  | |- context [f ?a ?t params] =>
      let y := fresh "y" in let E := fresh "E" in let Hr := fresh "Hr" in
      destruct (f a t params) as [y|?] eqn:E;
        [rewrite ?ret_bind
        |intros Hr; injection Hr as <-; right; eauto]
  | |- context [np.add ?a ?b] =>
      let c := fresh "c" in let E := fresh "E" in let Hr := fresh "Hr" in
      destruct (np.add a b) as [c|?] eqn:E;
        [rewrite ?ret_bind
        |apply add_Raise in E; intros Hr; injection Hr as <-; left; exact E]
  end.
  discriminate.
Qed.

(** The value of an evaluation that the iteration reaches is the one the
    completed iteration used. *)
Lemma rk4_eval_stage {P : Type} (f : field P) params dt s ti y1 y2 y3 y4 v j y :
  rk4_stages f params dt s ti y1 y2 y3 y4 v →
  rk4_eval f params dt s ti j = Ok y →
  In y [y1; y2; y3; y4].
Proof.
  intros (a2 & a3 & a4 & u1 & u2 & u3 & H1 & H2 & H3 & H4 & H5 & H6 & H7 & _).
  simpl in H2, H4, H6.
  destruct j as [|[|[|j]]]; cbn [rk4_eval];
    rewrite H1; rewrite ?ret_bind; try rewrite H2; rewrite ?ret_bind;
    try rewrite H3; rewrite ?ret_bind; try rewrite H4; rewrite ?ret_bind;
    try rewrite H5; rewrite ?ret_bind; try rewrite H6; rewrite ?ret_bind;
    try rewrite H7; intros E; injection E as <-; simpl; auto.
Qed.

(** For a state with more than one component (or none), the first sum that
    meets a derivative of a wrong length raises, before any further
    evaluation of the field. *)
Lemma rk4_increment_mismatch {P : Type} (f : field P) params dt s ti j y :
  length s ≠ 1%nat →
  rk4_eval f params dt s ti j = Ok y →
  length y ≠ length s → length y ≠ 1%nat →
  rk4_increment f params dt s ti = Raise ValueError.
Proof.
  intros Hd He Hy Hy1. unfold rk4_increment.
  assert (Hlen : ∀ z c, length (np.divs (np.muls z dt) c) = length z)
    by (intros; unfold np.divs, np.muls; rewrite !length_map; reflexivity).
  assert (Hlen' : ∀ z, length (np.muls z dt) = length z)
    by (intros; unfold np.muls; rewrite length_map; reflexivity).
  assert (Hlen2 : ∀ z, length (np.smul 2 z) = length z)
    by (intros; unfold np.smul; rewrite length_map; reflexivity).
  destruct j as [|[|[|j]]]; cbn [rk4_eval] in He.
  - rewrite He, ret_bind.
    rewrite (add_mismatch s (np.divs (np.muls y dt) 2));
      [reflexivity | | exact Hd |]; rewrite Hlen; auto.
  - apply bind_Ok in He as (y1 & E1 & He). apply bind_Ok in He as (a2 & E2 & He).
    rewrite E1, ret_bind, E2, ret_bind, He, ret_bind.
    rewrite (add_mismatch s (np.divs (np.muls y dt) 2));
      [reflexivity | | exact Hd |]; rewrite Hlen; auto.
  - apply bind_Ok in He as (y1 & E1 & He). apply bind_Ok in He as (a2 & E2 & He).
    apply bind_Ok in He as (y2 & E3 & He). apply bind_Ok in He as (a3 & E4 & He).
    rewrite E1, ret_bind, E2, ret_bind, E3, ret_bind, E4, ret_bind, He, ret_bind.
    rewrite (add_mismatch s (np.muls y dt));
      [reflexivity | | exact Hd |]; rewrite Hlen'; auto.
  - apply bind_Ok in He as (y1 & E1 & He). apply bind_Ok in He as (a2 & E2 & He).
    apply bind_Ok in He as (y2 & E3 & He). apply bind_Ok in He as (a3 & E4 & He).
    apply bind_Ok in He as (y3 & E5 & He). apply bind_Ok in He as (a4 & E6 & He).
    rewrite E1, ret_bind, E2, ret_bind, E3, ret_bind, E4, ret_bind, E5, ret_bind,
      E6, ret_bind, He, ret_bind.
    destruct (add_to_state _ _ _ _ eq_refl Hd E2) as [L1 _]. rewrite Hlen in L1.
    destruct (add_to_state _ _ _ _ eq_refl Hd E4) as [L2 _]. rewrite Hlen in L2.
    destruct (add_to_state _ _ _ _ eq_refl Hd E6) as [L3 _]. rewrite Hlen' in L3.
    destruct (add_fitting (length s) (np.muls y1 dt) (np.smul 2 (np.muls y2 dt)))
      as (u1 & -> & Lu1); [rewrite Hlen'; exact L1 | rewrite Hlen2, Hlen'; exact L2|].
    rewrite ret_bind.
    destruct (add_fitting (length s) u1 (np.smul 2 (np.muls y3 dt)))
      as (u2 & -> & Lu2); [exact Lu1 | rewrite Hlen2, Hlen'; exact L3|].
    rewrite ret_bind.
    destruct (np.add u2 (np.muls y dt)) as [u3|e] eqn:E7.
    + rewrite ret_bind. apply broadcast_bshape in E7. rewrite Hlen' in E7.
      assert (L7 : length u3 = length y) by (unfold bshape in E7; lia).
      apply add_mismatch; [| exact Hd |]; unfold np.divs; rewrite length_map; lia.
    + apply add_Raise in E7 as ->. reflexivity.
Qed.

(** An iteration in which an evaluation returned an array of a wrong length
    does not store a row: it raises [ValueError], or, for a state with a
    single component only, what a later evaluation of the field raised. *)
Lemma rk4_step_mismatch {P : Type} (f : field P) params dt s ti j y :
  rk4_eval f params dt s ti j = Ok y →
  length y ≠ length s → length y ≠ 1%nat →
  ∃ e, (v ← rk4_increment f params dt s ti; np.fit_row (length s) v) = Raise e
       ∧ (e = ValueError
          ∨ (length s = 1%nat ∧ ∃ s' t', f s' t' params = Raise e)).
Proof.
  intros He Hy Hy1.
  destruct (decide (length s = 1%nat)) as [Hd|Hd].
  - destruct (rk4_increment f params dt s ti) as [v|e] eqn:Ev.
    + rewrite ret_bind. destruct (np.fit_row (length s) v) as [row|e] eqn:Ef.
      * exfalso. apply rk4_increment_Ok in Ev as (y1 & y2 & y3 & y4 & Hst).
        pose proof (rk4_stages_lengths _ _ _ _ _ _ _ _ _ _ _ Hst Ef) as Hall.
        pose proof (rk4_eval_stage _ _ _ _ _ _ _ _ _ _ _ _ Hst He) as Hin.
        rewrite Forall_forall in Hall. apply list_elem_of_In in Hin.
        destruct (Hall y Hin); contradiction.
      * exists e. split; [reflexivity|]. left. eapply fit_row_Raise; eauto.
    + exists e. split; [reflexivity|].
      destruct (rk4_increment_Raise _ _ _ _ _ _ Ev) as [->|Hf]; auto.
  - exists ValueError.
    rewrite (rk4_increment_mismatch f params dt s ti j y Hd He Hy Hy1).
    split; [reflexivity | left; reflexivity].
Qed.

Lemma for_each_app {A S : Type} (body : A → S → result S) xs ys s :
  for_each body (xs ++ ys) s = (s' ← for_each body xs s; for_each body ys s').
Proof.
  revert s. induction xs as [|x xs IH]; intros s; simpl; [reflexivity|].
  destruct (body x s) as [s1|e]; simpl; [apply IH | reflexivity].
Qed.

(** An exception of iteration [i], reached after [i] iterations that
    succeeded, is the exception of the call. *)
Lemma runge_kutta4_raises_at {P : Type} (f : field P) state0 t0 tf dt params ts i st e :
  np.arange t0 tf dt = Ok ts → (i + 1 < length ts)%nat →
  for_each (rk4_body f params dt ts) (seq 0 i)
    (<[0%nat := state0]> (np.zeros (length ts) (length state0))) = Ok st →
  rk4_body f params dt ts i st = Raise e →
  runge_kutta4 f state0 (t0, tf) dt params = Raise e.
Proof.
  intros Ht Hi Hpre Hbody. unfold runge_kutta4. rewrite Ht, ret_bind.
  rewrite setrow_zeros by reflexivity.
  destruct (length ts) as [|n] eqn:En; [lia|]. rewrite ret_bind.
  replace (S n - 1)%nat with (i + S (n - 1 - i))%nat by lia.
  rewrite seq_app, for_each_app, Hpre, ret_bind.
  cbn [seq for_each]. simpl (0 + i)%nat. rewrite Hbody. reflexivity.
Qed.

(** The direct form for the whole call: the iteration [i] that a run
    reaches and in which an evaluation returns an array of a wrong length
    ends the call. *)
Lemma runge_kutta4_mismatch {P : Type} (f : field P) state0 t0 tf dt params
    ts i st s ti j y :
  np.arange t0 tf dt = Ok ts → (i + 1 < length ts)%nat →
  for_each (rk4_body f params dt ts) (seq 0 i)
    (<[0%nat := state0]> (np.zeros (length ts) (length state0))) = Ok st →
  st !! i = Some s → ts !! i = Some ti →
  rk4_eval f params dt s ti j = Ok y →
  length y ≠ length state0 → length y ≠ 1%nat →
  ∃ e, runge_kutta4 f state0 (t0, tf) dt params = Raise e
       ∧ (e = ValueError
          ∨ (length state0 = 1%nat ∧ ∃ s' t', f s' t' params = Raise e)).
Proof.
  intros Ht Hi Hpre Hs Hti He Hy Hy1.
  assert (Hrect : rect (length state0)
            (<[0%nat := state0]> (np.zeros (length ts) (length state0)))).
  { apply Forall_insert; [apply rect_zeros | reflexivity]. }
  destruct (rk4_loop_spec f params dt ts (length state0) i 0%nat _ _ Hrect Hpre)
    as (Hlen & Hrect' & _ & _).
  rewrite length_insert in Hlen. unfold np.zeros in Hlen at 1.
  rewrite length_replicate in Hlen.
  assert (Hd : length s = length state0) by (eapply rect_lookup; eauto).
  destruct (lookup_lt_is_Some_2 st (i + 1)%nat ltac:(lia)) as [old Hold].
  assert (Hdo : length old = length state0) by (eapply rect_lookup; eauto).
  rewrite <- Hd in Hy.
  destruct (rk4_step_mismatch f params dt s ti j y He Hy Hy1) as (e & Hstep & Hkind).
  exists e. split; [|rewrite <- Hd; exact Hkind].
  apply (runge_kutta4_raises_at f state0 t0 tf dt params ts i st e Ht Hi Hpre).
  unfold rk4_body, np.getitem. rewrite Hs, ret_bind, Hti, ret_bind.
  unfold np.setrow. rewrite Hold, Hdo, <- Hd.
  destruct (rk4_increment f params dt s ti) as [v|e'].
  - cbn [mbind result_bind] in Hstep |- *. rewrite Hstep. reflexivity.
  - cbn [mbind result_bind] in Hstep. injection Hstep as ->. reflexivity.
Qed.

(** * Calls outside the contract *)

(** ** The step that is not positive *)

(** C5 (as amended). The integrator has no check of its own on [dt].  With
    [dt = 0] the call fails with the [ZeroDivisionError] raised inside
    [np.arange].  With [dt < 0] and [t0 <= tf] the time grid is empty and
    the call fails with [IndexError] when the initial state is stored, or
    with the [ValueError] of [np.arange] when that raises; no trajectory is
    returned, for any field.  With [dt < 0] and [tf < t0] the call is not
    rejected: with a field that honours the contract the system is
    integrated backwards in time and a trajectory of at least one sample,
    starting at [t0] with the initial state, is returned, unless
    [np.arange] raises [ValueError] or, for a quotient [(tf - t0)/dt] of
    exactly [2^63], leaves an empty grid ([IndexError]). *)
Theorem nonpositive_step_raises {P : Type} (f : field P) state0 t0 tf dt params :
  ((dt =? 0) = true →
   runge_kutta4 f state0 (t0, tf) dt params = Raise ZeroDivisionError)
  ∧ ((dt <? 0) = true → (t0 <=? tf) = true →
     (∀ ts, np.arange t0 tf dt = Ok ts → ts = [])
     ∧ (∀ e, np.arange t0 tf dt = Raise e → e = ValueError)
     ∧ runge_kutta4 f state0 (t0, tf) dt params
       = Raise (match np.arange t0 tf dt with Ok _ => IndexError | Raise e => e end))
  ∧ ((dt <? 0) = true → (tf <? t0) = true →
     shape_respecting f params (length state0) →
     match runge_kutta4 f state0 (t0, tf) dt params with
     | Ok (ts, states) =>
         np.arange t0 tf dt = Ok ts ∧ ts ≠ [] ∧ ts !! 0%nat = Some t0
         ∧ states !! 0%nat = Some state0 ∧ length states = length ts
     | Raise e =>
         (e = ValueError ∧ np.arange t0 tf dt = Raise ValueError)
         ∨ (e = IndexError ∧ np.arange t0 tf dt = Ok []
            ∧ (tf - t0) / dt = 9223372036854775808)
     end).
Proof.
  split; [|split].
  - intros Hz. unfold runge_kutta4, np.arange, np.calc_length.
    change (is_zero dt) with (dt =? 0). rewrite Hz. reflexivity.
  - intros Hdt Hle.
    assert (Hts : ∀ ts, np.arange t0 tf dt = Ok ts → ts = []).
    { intros ts. apply arange_opposed. right. auto. }
    split; [exact Hts|]. split; [|apply runge_kutta4_no_grid; exact Hts].
    intros e He. destruct (arange_Raise _ _ _ _ He) as [[_ Hz]|[-> _]]; [|reflexivity].
    rewrite nonzero_step in Hz by auto. discriminate.
  - intros Hdt Hlt Hf. apply runge_kutta4_directed; [right; auto | exact Hf].
Qed.

Lemma nonpositive_step_raises_witness :
  runge_kutta4 dc_motor_ode motor_state0 (0.0, 2.0) 0 motor_params
  = Raise ZeroDivisionError
  ∧ runge_kutta4 dc_motor_ode motor_state0 (0.0, 2.0) (-0.01) motor_params
    = Raise IndexError
  ∧ match runge_kutta4 dc_motor_ode motor_state0 (1.0, 0.0) (-0.5) motor_params with
    | Ok (ts, states) =>
        np.arange 1.0 0.0 (-0.5) = Ok ts ∧ ts ≠ [] ∧ ts !! 0%nat = Some 1.0
        ∧ states !! 0%nat = Some motor_state0 ∧ length states = length ts
    | Raise e =>
        (e = ValueError ∧ np.arange 1.0 0.0 (-0.5) = Raise ValueError)
        ∨ (e = IndexError ∧ np.arange 1.0 0.0 (-0.5) = Ok []
           ∧ (0.0 - 1.0) / (-0.5) = 9223372036854775808)
    end.
Proof.
  split; [|split].
  - exact (proj1 (nonpositive_step_raises dc_motor_ode motor_state0 0.0 2.0 0
                    motor_params) eq_refl).
  - exact (proj2 (proj2 (proj1 (proj2 (nonpositive_step_raises dc_motor_ode
                    motor_state0 0.0 2.0 (-0.01) motor_params)) eq_refl eq_refl))).
  - exact (proj2 (proj2 (nonpositive_step_raises dc_motor_ode motor_state0 1.0 0.0
                    (-0.5) motor_params)) eq_refl eq_refl
             (dc_motor_ode_shape motor_params eq_refl)).
Defined.

(** C5, counterexample. With [dt = -0.5] and the span [(1, 0)] the motor
    model is integrated backwards in time and a trajectory of two samples
    is returned, with no error. *)
Lemma nonpositive_step_counterexample :
  (-0.5 <=? 0) = true
  ∧ runge_kutta4 dc_motor_ode motor_state0 (1.0, 0.0) (-0.5) motor_params
    = Ok ([1; 0.5], [[0; 0]; [129.6875; -54.479166666666664]]).
Proof. split; [reflexivity|]. vm_compute. reflexivity. Qed.

(** ** The derivative whose length is not that of the state *)

(** C7 (as amended). The integrator has no dimension check of its own; a
    mismatch is caught by NumPy's broadcasting.  When, in an iteration the
    run reaches, a field evaluation returns an array whose length is
    neither that of the state nor 1, the call raises and returns no
    trajectory: the exception is NumPy's [ValueError] for shapes that do
    not broadcast, except that for a state of a single component, where the
    longer derivative is first broadcast into the intermediate state, a
    later evaluation of the field may raise before NumPy does.  Hence a
    returned trajectory was computed from derivatives that all have the
    length of the state or length 1.  A derivative of length 1 is not
    rejected: a field that always returns one element gives, on every
    non-empty grid, the trajectory of the field that repeats this slope for
    every component. *)
Theorem derivative_length_checked {P : Type} (f : field P) state0 t0 tf dt params ts :
  np.arange t0 tf dt = Ok ts →
  (∀ i st s ti j y,
     (i + 1 < length ts)%nat →
     for_each (rk4_body f params dt ts) (seq 0 i)
       (<[0%nat := state0]> (np.zeros (length ts) (length state0))) = Ok st →
     st !! i = Some s → ts !! i = Some ti →
     rk4_eval f params dt s ti j = Ok y →
     length y ≠ length state0 → length y ≠ 1%nat →
     ∃ e, runge_kutta4 f state0 (t0, tf) dt params = Raise e
          ∧ (e = ValueError
             ∨ (length state0 = 1%nat ∧ ∃ s' t', f s' t' params = Raise e)))
  ∧ (∀ states i s ti y1 y2 y3 y4 v,
       runge_kutta4 f state0 (t0, tf) dt params = Ok (ts, states) →
       (i + 1 < length ts)%nat →
       states !! i = Some s → ts !! i = Some ti →
       rk4_stages f params dt s ti y1 y2 y3 y4 v →
       Forall (λ y, length y = length state0 ∨ length y = 1%nat) [y1; y2; y3; y4])
  ∧ ((∀ s t, ∃ c, f s t params = Ok [c]) → ts ≠ [] →
     ∃ states,
       runge_kutta4 f state0 (t0, tf) dt params = Ok (ts, states)
       ∧ runge_kutta4 (stretched f) state0 (t0, tf) dt params = Ok (ts, states)).
Proof.
  intros Ht. split; [|split].
  - intros i st s ti j y Hi Hpre Hs Hti He Hy Hy1.
    eapply runge_kutta4_mismatch; eauto.
  - intros states i s ti y1 y2 y3 y4 v H Hi Hs Hti Hst.
    apply runge_kutta4_spec in H as (_ & _ & _ & Hrect & _ & Hstep).
    destruct (Hstep i Hi) as (s' & ti' & v' & row & Hs' & Hti' & Hv' & Hf & _).
    rewrite Hs in Hs'. injection Hs' as <-. rewrite Hti in Hti'. injection Hti' as <-.
    assert (Hv : rk4_increment f params dt s ti = Ok v)
      by (apply rk4_increment_Ok; eauto).
    rewrite Hv in Hv'. injection Hv' as <-.
    assert (Hd : length s = length state0) by (eapply rect_lookup; eauto).
    rewrite <- Hd in *. eapply rk4_stages_lengths; eauto.
  - intros Hone Hne.
    assert (Hsh : shape_respecting (stretched f) params (length state0)).
    { intros s t Hs. destruct (Hone s t) as [c Hc]. unfold stretched.
      rewrite Hc, ret_bind. eexists. split; [reflexivity|].
      rewrite length_replicate. exact Hs. }
    destruct (runge_kutta4_total (stretched f) state0 t0 tf dt params ts Hsh Ht Hne)
      as (states & E & _).
    exists states. split; [|exact E].
    rewrite (runge_kutta4_single_slope f state0 (t0, tf) dt params Hone). exact E.
Qed.

Lemma derivative_length_checked_witness :
  (∃ e, runge_kutta4 (const_field [1; 2; 3]) [0; 5] (0, 0.3) 0.1 tt = Raise e
        ∧ (e = ValueError
           ∨ (length [0; 5] = 1%nat
              ∧ ∃ s' t', const_field [1; 2; 3] s' t' tt = Raise e)))
  ∧ ∃ states,
      runge_kutta4 (const_field [1]) [0; 5] (0, 0.3) 0.1 tt
      = Ok ([0; 0.1; 0.2], states)
      ∧ runge_kutta4 (stretched (const_field [1])) [0; 5] (0, 0.3) 0.1 tt
        = Ok ([0; 0.1; 0.2], states).
Proof.
  assert (Ht : np.arange 0 0.3 0.1 = Ok [0; 0.1; 0.2]) by (vm_compute; reflexivity).
  split.
  - apply (proj1 (derivative_length_checked (const_field [1; 2; 3]) [0; 5]
                    0 0.3 0.1 tt [0; 0.1; 0.2] Ht)
             0%nat [[0; 5]; [0; 0]; [0; 0]] [0; 5] 0 0%nat [1; 2; 3]).
    + simpl. lia.
    + reflexivity.
    + reflexivity.
    + reflexivity.
    + reflexivity.
    + simpl. lia.
    + simpl. lia.
  - apply (proj2 (proj2 (derivative_length_checked (const_field [1]) [0; 5]
                           0 0.3 0.1 tt [0; 0.1; 0.2] Ht))).
    + intros s t. exists 1. reflexivity.
    + discriminate.
Defined.

(** C7, counterexample. A field that returns a length-1 derivative for a
    two-component state is not rejected: the run returns a trajectory in
    which the single slope was added to both components. *)
Lemma derivative_length_counterexample :
  const_field [1] [0; 5] 0 tt = Ok [1]
  ∧ length [1] ≠ length [0; 5]
  ∧ runge_kutta4 (const_field [1]) [0; 5] (0, 0.3) 0.1 tt
    = Ok ([0; 0.1; 0.2],
          [[0; 5]; [0.099999999999999992; 5.0999999999999996];
           [0.19999999999999998; 5.1999999999999993]]).
Proof.
  split; [reflexivity|]. split; [simpl; lia|]. vm_compute. reflexivity.
Qed.

(** With a state of a single component the mismatch is met late: a
    three-element derivative is broadcast into the intermediate state, and
    the call ends with NumPy's [ValueError] at the assignment of the row,
    or with what the field raises on the widened state. *)
Example wide_derivative_one_component :
  runge_kutta4 (const_field [1; 2; 3]) [0] (0, 0.3) 0.1 tt = Raise ValueError
  ∧ runge_kutta4
      (λ s _ (_ : unit),
         if decide (length s = 1%nat) then Ok [1; 2; 3] else Raise ZeroDivisionError)
      [0] (0, 0.3) 0.1 tt
    = Raise ZeroDivisionError.
Proof. split; vm_compute; reflexivity. Qed.
